(** * gta3sc: options, diagnostics and SWITCH lowering

    A shallow embedding of [src/program.hpp] (the [Options] record, the
    [format_error] overloads and the diagnostic methods of
    [ProgramContext]) together with a model of the SWITCH lowering whose
    expected output is pinned by [test/codegen/switch_sa.sc]. *)

From Stdlib Require Import ZArith NArith List Ascii String Lia.
From Stdlib Require Import Sorting.Sorted Sorting.Permutation.
From stdpp Require Import base numbers option list strings pretty gmap sorting.
From Equations Require Import Equations.

Local Open Scope Z_scope.
Set Warnings "-register-all".

(** ** Machine integers *)

(** [uint32_t] arithmetic wraps modulo [2^32]. *)
Definition wrap32 (n : N) : N := (n mod 2 ^ 32)%N.

(** The line feed character written ["\n"] in the C++ source. *)
Definition LF : string := String (ascii_of_nat 10) EmptyString.

(** ** Options (program.hpp, lines 15-102) *)

Module Lang.
Inductive t := IR2 | GTA3Script.
End Lang.

Module HeaderVersion.
Inductive t := None | GTA3 | GTAVC | GTASA.
End HeaderVersion.

Record Options := mkOptions {
  headerless : bool;
  pedantic : bool;
  guesser : bool;
  use_half_float : bool;
  has_text_label_prefix : bool;
  skip_single_ifs : bool;
  optimize_zero_floats : bool;
  entity_tracking : bool;
  script_name_check : bool;
  fswitch : bool;
  allow_break_continue : bool;
  scope_then_label : bool;
  farrays : bool;
  streamed_scripts : bool;
  text_label_vars : bool;
  use_local_offsets : bool;
  skip_cutscene : bool;
  fsyntax_only : bool;
  emit_ir2 : bool;
  linear_sweep : bool;
  relax_not : bool;
  output_cleo : bool;
  header : HeaderVersion.t;
  cleo : option N;
  timer_index : Z;
  local_var_limit : N;
  mission_var_begin : N;
  mission_var_limit : option N;
  switch_case_limit : option N;
  array_elem_limit : option N;
  (* private: transparent_map<std::string, std::string> *)
  defines : gmap string string
}.

(** The member initialisers of [struct Options]. *)
Definition default_options : Options := {|
  headerless := false; pedantic := false; guesser := false;
  use_half_float := false; has_text_label_prefix := false;
  skip_single_ifs := false; optimize_zero_floats := false;
  entity_tracking := true; script_name_check := true;
  fswitch := false; allow_break_continue := false;
  scope_then_label := false; farrays := false; streamed_scripts := false;
  text_label_vars := false; use_local_offsets := false;
  skip_cutscene := false; fsyntax_only := false; emit_ir2 := false;
  linear_sweep := false; relax_not := false; output_cleo := false;
  header := HeaderVersion.None; cleo := None;
  timer_index := 0; local_var_limit := 0%N; mission_var_begin := 0%N;
  mission_var_limit := None; switch_case_limit := None;
  array_elem_limit := None;
  defines := ∅
|}.

Definition set_defines (d : gmap string string) (o : Options) : Options :=
  mkOptions (headerless o) (pedantic o) (guesser o) (use_half_float o)
    (has_text_label_prefix o) (skip_single_ifs o) (optimize_zero_floats o)
    (entity_tracking o) (script_name_check o) (fswitch o)
    (allow_break_continue o) (scope_then_label o) (farrays o)
    (streamed_scripts o) (text_label_vars o) (use_local_offsets o)
    (skip_cutscene o) (fsyntax_only o) (emit_ir2 o) (linear_sweep o)
    (relax_not o) (output_cleo o) (header o) (cleo o) (timer_index o)
    (local_var_limit o) (mission_var_begin o) (mission_var_limit o)
    (switch_case_limit o) (array_elem_limit o) d.

Definition set_header (h : HeaderVersion.t) (o : Options) : Options :=
  mkOptions (headerless o) (pedantic o) (guesser o) (use_half_float o)
    (has_text_label_prefix o) (skip_single_ifs o) (optimize_zero_floats o)
    (entity_tracking o) (script_name_check o) (fswitch o)
    (allow_break_continue o) (scope_then_label o) (farrays o)
    (streamed_scripts o) (text_label_vars o) (use_local_offsets o)
    (skip_cutscene o) (fsyntax_only o) (emit_ir2 o) (linear_sweep o)
    (relax_not o) (output_cleo o) h (cleo o) (timer_index o)
    (local_var_limit o) (mission_var_begin o) (mission_var_limit o)
    (switch_case_limit o) (array_elem_limit o) (defines o).

Definition set_pedantic (b : bool) (o : Options) : Options :=
  mkOptions (headerless o) b (guesser o) (use_half_float o)
    (has_text_label_prefix o) (skip_single_ifs o) (optimize_zero_floats o)
    (entity_tracking o) (script_name_check o) (fswitch o)
    (allow_break_continue o) (scope_then_label o) (farrays o)
    (streamed_scripts o) (text_label_vars o) (use_local_offsets o)
    (skip_cutscene o) (fsyntax_only o) (emit_ir2 o) (linear_sweep o)
    (relax_not o) (output_cleo o) (header o) (cleo o) (timer_index o)
    (local_var_limit o) (mission_var_begin o) (mission_var_limit o)
    (switch_case_limit o) (array_elem_limit o) (defines o).

(** The template parameter [TEnum] of [get_header]: an enumeration with
    the members [Liberty], [Miami] and [SanAndreas]
    ([CompiledScmHeader::Version] or [DecompiledScmHeader::Version]). *)
Class HeaderEnum (TEnum : Type) := {
  Liberty : TEnum;
  Miami : TEnum;
  SanAndreas : TEnum
}.

Module CompiledScmHeader.
Inductive Version := Liberty | Miami | SanAndreas.
End CompiledScmHeader.

#[global] Instance CompiledScmHeader_enum : HeaderEnum CompiledScmHeader.Version := {|
  Liberty := CompiledScmHeader.Liberty;
  Miami := CompiledScmHeader.Miami;
  SanAndreas := CompiledScmHeader.SanAndreas
|}.

(** [Options::get_header<TEnum>()].  [Unreachable()] is undefined
    behaviour: the model has no result there ([None]). *)
Definition get_header {TEnum} `{HeaderEnum TEnum} (o : Options) : option TEnum :=
  match header o with
  | HeaderVersion.None => None
  | HeaderVersion.GTA3 => Some Liberty
  | HeaderVersion.GTAVC => Some Miami
  | HeaderVersion.GTASA => Some SanAndreas
  end.

(** [Options::define]: [std::map::emplace] inserts only when the key is
    absent. *)
Definition define (symbol : string) (value : string) (o : Options) : Options :=
  match defines o !! symbol with
  | Some _ => o
  | None => set_defines (<[symbol := value]> (defines o)) o
  end.

(** The default argument [value = "1"]. *)
Definition define1 (symbol : string) (o : Options) : Options :=
  define symbol "1" o.

(** [Options::undefine]. *)
Definition undefine (symbol : string) (o : Options) : Options :=
  match defines o !! symbol with
  | Some _ => set_defines (delete symbol (defines o)) o
  | None => o
  end.

(** [Options::is_defined]. *)
Definition is_defined (symbol : string) (o : Options) : bool :=
  match defines o !! symbol with
  | Some _ => true
  | None => false
  end.

(** ** Source contexts of a diagnostic

    The types of [parser.hpp] and [symtable.hpp], with exactly the
    members that [program.hpp] uses. *)

Module TokenStream.
(** [TokenStream::TextStream]: [stream_name], [get_line(lineno)] and
    [linecol_from_offset(offset)]. *)
Record TextStream := mkTextStream {
  stream_name : string;
  get_line : N → string;
  linecol_from_offset : N → N * N
}.

(** [TokenStream::TokenInfo]: a text stream and a token's extent. *)
Record TokenInfo := mkTokenInfo {
  stream : TextStream;
  begin : N;
  end_ : N
}.

(** [TokenStream]: only its [text] member is used. *)
Record t := mkTokenStream { text : TextStream }.

(** [TokenData]: what [SyntaxTree::get_token()] returns. *)
Record TokenData := mkTokenData { tok_begin : N; tok_end : N }.
End TokenStream.

(** [Script]: only [path] is used, as [path.generic_u8string()]. *)
Record Script := mkScript { path : string }.

(** [SyntaxTree]: [has_text()], the weak pointer [token_stream()] (here
    [None] when its [use_count()] is zero), [get_token()] and the child
    nodes ranged over by [begin()]/[end()]. *)
Inductive SyntaxTree := SyntaxTreeNode
  (has_text : bool)
  (token_stream : option TokenStream.t)
  (get_token : TokenStream.TokenData)
  (children : list SyntaxTree).

Definition has_text (t : SyntaxTree) : bool :=
  match t with SyntaxTreeNode b _ _ _ => b end.
Definition token_stream (t : SyntaxTree) : option TokenStream.t :=
  match t with SyntaxTreeNode _ s _ _ => s end.
Definition get_token (t : SyntaxTree) : TokenStream.TokenData :=
  match t with SyntaxTreeNode _ _ k _ => k end.
Definition children (t : SyntaxTree) : list SyntaxTree :=
  match t with SyntaxTreeNode _ _ _ c => c end.

(** [struct tag_nocontext_t {}]. *)
Inductive tag_nocontext_t := nocontext.

(** ** format_error (program.hpp, lines 104-207) *)

(** [n] blanks. *)
Fixpoint blanks (n : nat) : string :=
  match n with
  | O => EmptyString
  | S k => String " "%char (blanks k)
  end.

(** [fmt]'s ["{:>{}}"]: [s] right-aligned in a field of [width]
    characters; a field narrower than [s] leaves [s] as it is. *)
Definition fmt_right (s : string) (width : N) : string :=
  blanks (N.to_nat width - String.length s) +:+ s.

(** [std::string::size() != 0]. *)
Definition nonempty (s : string) : bool :=
  match s with
  | EmptyString => false
  | String _ _ => true
  end.

(** The general overload.  [type] and [filename] are [const char*] and
    may be null; [stream] is an [optional]; [lineno] and [colno] are
    [uint32_t].  [msg] stands for the text [fmt::format(msg, args...)]
    has produced. *)
Definition format_error (type : option string)
    (stream : option TokenStream.TextStream)
    (filename : option string) (lineno colno : N) (msg : string) : string :=
  let message := EmptyString in
  let message :=
    match filename with
    | Some f => (message +:+ f) +:+ ":"
    | None => message +:+ "gta3sc:"
    end in
  let message :=
    if negb (lineno =? 0)%N
    then (message +:+ pretty lineno) +:+ ":"
    else message in
  let message :=
    if negb (lineno =? 0)%N && negb (colno =? 0)%N
    then (message +:+ pretty colno) +:+ ":"
    else message in
  let message :=
    if nonempty message then message +:+ " " else message in
  let message :=
    match type with
    | Some t => (message +:+ t) +:+ ": "
    | None => message
    end in
  let message := message +:+ msg in
  let message :=
    match stream with
    | Some st =>
        if negb (lineno =? 0)%N
        then message +:+ (LF +:+ " " +:+ TokenStream.get_line st lineno
                          +:+ LF +:+ " " +:+ fmt_right "^" colno)
        else message
    | None => message
    end in
  message.

(** The overloads of [format_error] are selected by the static type of
    the context argument. *)
Class ErrorContext (Context : Type) :=
  format_error_at : option string → Context → string → string.

(** [format_error(type, tag_nocontext_t, msg, args...)]. *)
#[global] Instance format_error_nocontext : ErrorContext tag_nocontext_t :=
  λ type _ msg, format_error type None None 0 0 msg.

(** [format_error(type, const Script&, msg, args...)]. *)
#[global] Instance format_error_script : ErrorContext Script :=
  λ type script msg, format_error type None (Some (path script)) 0 0 msg.

(** [format_error(type, const TokenStream::TokenInfo&, msg, args...)].
    [linecol_from_offset] yields [size_t]s, which the general overload
    receives as [uint32_t]. *)
#[global] Instance format_error_token : ErrorContext TokenStream.TokenInfo :=
  λ type context msg,
    let st := TokenStream.stream context in
    if (TokenStream.begin context =? TokenStream.end_ context)%N
    then format_error type None (Some (TokenStream.stream_name st)) 0 0 msg
    else
      let '(lineno, colno) :=
        TokenStream.linecol_from_offset st (TokenStream.begin context) in
      format_error type (Some st) (Some (TokenStream.stream_name st))
        (wrap32 lineno) (wrap32 colno) msg.

(** [format_error(type, const SyntaxTree&, msg, args...)]. *)
#[global] Instance format_error_tree : ErrorContext SyntaxTree :=
  λ type context_ msg,
    let context :=
      if negb (has_text context_)
      then match List.find has_text (children context_) with
           | Some child => child
           | None => context_
           end
      else context_ in
    match token_stream context with
    | None =>
        format_error_at (Some "internal_error") nocontext
          "context->token_stream() == nullptr during format_error"
    | Some tstream =>
        let tok := get_token context in
        format_error_at type
          (TokenStream.mkTokenInfo (TokenStream.text tstream)
             (TokenStream.tok_begin tok) (TokenStream.tok_end tok))
          msg
    end.

(** ** ProgramContext (program.hpp, lines 209-312) *)

(** [Command] is declared in [commands.hpp]; [program.hpp] reads its
    [supported] flag only. *)
Record Command := mkCommand {
  name : string;
  opcode : N;
  supported : bool
}.

(** The data members of [ProgramContext] that the diagnostic methods
    touch: the constant [opt], the three [std::atomic<uint32_t>]
    counters, and the lines written to [stderr] by [puts]. *)
Record ProgramContext := mkProgramContext {
  opt : Options;
  error_count : N;
  fatal_count : N;
  warn_count : N;
  stderr : list string
}.

(** The constructor: counters are initialised with [{0}]. *)
Definition new_context (o : Options) : ProgramContext :=
  {| opt := o; error_count := 0; fatal_count := 0; warn_count := 0;
     stderr := [] |}.

(** How a call ends: it returns a value, or [HaltJobException] leaves it. *)
Inductive Outcome (A : Type) :=
| Returned (a : A)
| Halted.
Arguments Returned {A} a.
Arguments Halted {A}.

(** A member function of [ProgramContext] that may throw. *)
Definition Job (A : Type) : Type := ProgramContext → Outcome A * ProgramContext.

#[global] Instance Job_ret : MRet Job := λ A a pc, (Returned a, pc).

#[global] Instance Job_bind : MBind Job := λ A B k m pc,
  match m pc with
  | (Returned a, pc') => k a pc'
  | (Halted, pc') => (Halted, pc')
  end.

(** [throw HaltJobException()]. *)
Definition throw_halt {A} : Job A := λ pc, (Halted, pc).

(** [ProgramContext::puts]: [fprintf(stderr, "%s\n", msg)]. *)
Definition puts (msg : string) : Job unit :=
  λ pc, (Returned tt,
         mkProgramContext (opt pc) (error_count pc) (fatal_count pc)
           (warn_count pc) (stderr pc ++ [msg +:+ LF])).

Definition incr_error_count : Job unit :=
  λ pc, (Returned tt,
         mkProgramContext (opt pc) (wrap32 (error_count pc + 1))
           (fatal_count pc) (warn_count pc) (stderr pc)).

Definition incr_fatal_count : Job unit :=
  λ pc, (Returned tt,
         mkProgramContext (opt pc) (error_count pc)
           (wrap32 (fatal_count pc + 1)) (warn_count pc) (stderr pc)).

Definition incr_warn_count : Job unit :=
  λ pc, (Returned tt,
         mkProgramContext (opt pc) (error_count pc) (fatal_count pc)
           (wrap32 (warn_count pc + 1)) (stderr pc)).

(** [ProgramContext::has_error]. *)
Definition has_error (pc : ProgramContext) : bool :=
  (0 <? error_count pc)%N || (0 <? fatal_count pc)%N.

(** [ProgramContext::error].  The cutoff on [error_count] is commented
    out in the source and is no part of the function. *)
Definition error {Context} `{ErrorContext Context}
    (context : Context) (msg : string) : Job unit :=
  incr_error_count ;;
  puts (format_error_at (Some "error") context msg).

(** [ProgramContext::note]. *)
Definition note {Context} `{ErrorContext Context}
    (context : Context) (msg : string) : Job unit :=
  puts (format_error_at (Some "note") context msg).

(** [ProgramContext::warning]. *)
Definition warning {Context} `{ErrorContext Context}
    (context : Context) (msg : string) : Job unit :=
  incr_warn_count ;;
  puts (format_error_at (Some "warning") context msg).

(** [ProgramContext::fatal_error], declared [[noreturn]]. *)
Definition fatal_error {A Context} `{ErrorContext Context}
    (context : Context) (msg : string) : Job A :=
  incr_fatal_count ;;
  puts (format_error_at (Some "fatal error") context msg) ;;
  throw_halt.

(** [ProgramContext::register_errors]. *)
Definition register_errors (n : N) : Job unit :=
  λ pc, (Returned tt,
         mkProgramContext (opt pc) (wrap32 (error_count pc + n))
           (fatal_count pc) (warn_count pc) (stderr pc)).

(** [ProgramContext::supported_or_fatal] for commands.  The message is
    ["command '{}' undefined or unsupported"] formatted with [name]. *)
Definition supported_or_fatal {Context} `{ErrorContext Context}
    (context : Context) (opt : option Command) (name : string) : Job Command :=
  match opt with
  | Some c =>
      if negb (supported c)
      then fatal_error context
             ("command '" +:+ name +:+ "' undefined or unsupported")
      else mret c
  | None =>
      fatal_error context
        ("command '" +:+ name +:+ "' undefined or unsupported")
  end.

(** [Commands::Alternator] is declared in [commands.hpp]. *)
Record Alternator := mkAlternator { alternator_name : string }.

(** [ProgramContext::supported_or_fatal] for alternators. *)
Definition supported_or_fatal_alternator {Context} `{ErrorContext Context}
    (context : Context) (opt : option Alternator) (name : string)
    : Job Alternator :=
  match opt with
  | Some a => mret a
  | None =>
      fatal_error context
        ("alternator '" +:+ name +:+ "' undefined or unsupported")
  end.

(** The four diagnostic entry points, as one dispatch. *)
Inductive Diagnostic := DNote | DWarning | DError | DFatalError.

Definition report {Context} `{ErrorContext Context}
    (d : Diagnostic) (context : Context) (msg : string) : Job unit :=
  match d with
  | DNote => note context msg
  | DWarning => warning context msg
  | DError => error context msg
  | DFatalError => fatal_error context msg
  end.

(** A sequence of calls made one after the other; a halt ends it. *)
Fixpoint sequence_ (js : list (Job unit)) : Job unit :=
  match js with
  | [] => mret tt
  | j :: rest => j ;; sequence_ rest
  end.

(** ** Lowered instructions and the integer encoder

    The output of the control-flow lowerer and of the code generator,
    as [test/codegen/switch_sa.sc] fixes it. *)

Inductive IntWidth := Int8 | Int16 | Int32.

Definition width_bits (w : IntWidth) : Z :=
  match w with
  | Int8 => 8
  | Int16 => 16
  | Int32 => 32
  end.

(** A signed two's-complement field of [width_bits w] bits holds [v]. *)
Definition fits (w : IntWidth) (v : Z) : bool :=
  (- 2 ^ (width_bits w - 1) <=? v) && (v <=? 2 ^ (width_bits w - 1) - 1).

(** Modelled from the spec: the width chooser of the code generator,
    which is missing from the sources ("smallest signed width holding
    the value: int8 for [-128,127], else int16, else int32"). *)
Definition int_width (v : Z) : IntWidth :=
  if (-128 <=? v) && (v <=? 127) then Int8
  else if (-32768 <=? v) && (v <=? 32767) then Int16
  else Int32.

Definition Label := string.

(** A variable reference: [&8] is the global at offset 8, [1@] the local
    in slot 1. *)
Inductive VarRef :=
| GlobalVar (offset : N)
| LocalVar (slot : N).

(** The operands that occur in a lowered SWITCH. *)
Inductive Operand :=
| OInt (w : IntWidth) (v : Z)
| OVar (r : VarRef)
| OLabel (l : Label).

(** Modelled from the spec: the emission of an integer literal, missing
    from the sources: the literal with the width [int_width] chooses. *)
Definition conv_int (v : Z) : Operand := OInt (int_width v) v.

Inductive Opcode := SWITCH_START | SWITCH_CONTINUED.

Record Instruction := mkInstruction {
  instr_opcode : Opcode;
  args : list Operand
}.

(** The textual IR2 form of the test fixture: [100i8], [200i16], [&8],
    [1@], [@MAIN_5]. *)
Definition width_suffix (w : IntWidth) : string :=
  match w with
  | Int8 => "i8"
  | Int16 => "i16"
  | Int32 => "i32"
  end.

Definition ir2_operand (a : Operand) : string :=
  match a with
  | OInt w v => pretty v +:+ width_suffix w
  | OVar (GlobalVar off) => "&" +:+ pretty off
  | OVar (LocalVar slot) => pretty slot +:+ "@"
  | OLabel l => "@" +:+ l
  end.

Definition opcode_name (op : Opcode) : string :=
  match op with
  | SWITCH_START => "SWITCH_START"
  | SWITCH_CONTINUED => "SWITCH_CONTINUED"
  end.

Definition ir2_instruction (i : Instruction) : string :=
  fold_left (λ acc a, acc +:+ " " +:+ ir2_operand a) (args i)
    (opcode_name (instr_opcode i)).

(** ** SWITCH lowering *)

(** The switch table of the data model; [default] is the optional
    DEFAULT clause, [cases] are in source order. *)
Record SwitchTable := mkSwitchTable {
  discriminant_var : VarRef;
  cases : list (Z * Label);
  default : option Label;
  end_label : Label
}.

Inductive LowerError := DuplicateCase | CaseLimitExceeded.

Inductive Lowered :=
| LoweredOk (code : list Instruction)
| LoweredError (e : LowerError).

(** Some value occurs twice. *)
Fixpoint has_duplicate (vs : list Z) : bool :=
  match vs with
  | [] => false
  | v :: rest => existsb (Z.eqb v) rest || has_duplicate rest
  end.

(** Ordering the cases by value, as the fixture shows them emitted. *)
Fixpoint insert_case (c : Z * Label) (l : list (Z * Label)) : list (Z * Label) :=
  match l with
  | [] => [c]
  | d :: l' => if fst c <=? fst d then c :: d :: l' else d :: insert_case c l'
  end.

Fixpoint sort_cases (l : list (Z * Label)) : list (Z * Label) :=
  match l with
  | [] => []
  | c :: l' => insert_case c (sort_cases l')
  end.

(** The operands of a run of [(value, label)] slots. *)
Definition slot_args (slots : list (Z * Label)) : list Operand :=
  slots ≫= λ s, [conv_int (fst s); OLabel (snd s)].

(** The number of [(value, label)] slots an instruction carries. *)
Definition capacity (op : Opcode) : nat :=
  match op with
  | SWITCH_START => 7
  | SWITCH_CONTINUED => 9
  end.

(** The sentinel pair that fills an unused slot. *)
Definition sentinel (sw : SwitchTable) : Z * Label := (-1, end_label sw).

(** The slots of one instruction: pad until the instruction is full. *)
Definition fill (op : Opcode) (sw : SwitchTable) (slots : list (Z * Label))
    : list (Z * Label) :=
  slots ++ replicate (capacity op - length slots) (sentinel sw).

(** The overflow instructions: as long as cases remain, one
    SWITCH_CONTINUED packed with the next nine. *)
Equations? switch_continued (sw : SwitchTable) (rest : list (Z * Label))
    : list Instruction by wf (length rest) lt :=
  switch_continued sw [] := [];
  switch_continued sw (c :: rest) :=
    mkInstruction SWITCH_CONTINUED
      (slot_args (fill SWITCH_CONTINUED sw (take 9 (c :: rest))))
    :: switch_continued sw (drop 9 (c :: rest)).
Proof. simpl. rewrite length_drop. lia. Qed.

(** The label taken when no case matches. *)
Definition default_label (sw : SwitchTable) : Label :=
  match default sw with
  | Some l => l
  | None => end_label sw
  end.

(** The operands of SWITCH_START that precede the slots: discriminant,
    case count, has-default flag, default label (the fixture has the
    flag, [1i8] or [0i8], between the count and the label). *)
Definition switch_header (sw : SwitchTable) : list Operand :=
  [ OVar (discriminant_var sw);
    conv_int (Z.of_nat (length (cases sw)));
    conv_int (match default sw with Some _ => 1 | None => 0 end);
    OLabel (default_label sw) ].

Definition emit_switch (sw : SwitchTable) : list Instruction :=
  let sorted := sort_cases (cases sw) in
  mkInstruction SWITCH_START
    (switch_header sw ++ slot_args (fill SWITCH_START sw (take 7 sorted)))
  :: switch_continued sw (drop 7 sorted).

(** Modelled from the spec: the SWITCH lowerer, which is missing from
    the sources (section 4.3, steps 1 to 6: collect the cases and the
    optional DEFAULT, reject duplicate values, enforce
    [switch_case_limit], take the end label as default label when there
    is no DEFAULT, emit SWITCH_START then the SWITCH_CONTINUEDs, pad the
    last instruction with sentinels).  The operand layout and the order
    of the cases follow the three blocks of [switch_sa.sc]. *)
Definition lower_switch (o : Options) (sw : SwitchTable) : Lowered :=
  if has_duplicate (cases sw).*1 then LoweredError DuplicateCase
  else
    match switch_case_limit o with
    | Some limit =>
        if (limit <? N.of_nat (length (cases sw)))%N
        then LoweredError CaseLimitExceeded
        else LoweredOk (emit_switch sw)
    | None => LoweredOk (emit_switch sw)
    end.

(** The slot operands of an instruction: everything after the header. *)
Definition instr_slots (i : Instruction) : list Operand :=
  match instr_opcode i with
  | SWITCH_START => drop 4 (args i)
  | SWITCH_CONTINUED => args i
  end.

(** [ceil(a / b)] for a positive [b]. *)
Definition ceil_div (a b : Z) : Z := - ((- a) / b).

(** The three SWITCH blocks of [test/codegen/switch_sa.sc]. *)
Definition switch_sa_1 : SwitchTable :=
  mkSwitchTable (GlobalVar 8)
    [(100, "MAIN_1"); (200, "MAIN_2"); (300, "MAIN_3"); (50, "MAIN_4")]
    (Some "MAIN_5") "MAIN_6".

Definition switch_sa_2 : SwitchTable :=
  mkSwitchTable (GlobalVar 8)
    [(100, "MAIN_7"); (200, "MAIN_8"); (50, "MAIN_9")]
    None "MAIN_10".

Definition switch_sa_3 : SwitchTable :=
  mkSwitchTable (GlobalVar 8)
    [(100, "MAIN_11"); (200, "MAIN_12"); (300, "MAIN_13"); (400, "MAIN_14");
     (500, "MAIN_15"); (600, "MAIN_16"); (700, "MAIN_17"); (800, "MAIN_18");
     (900, "MAIN_19")]
    None "MAIN_20".

Definition lowered_ir2 (o : Options) (sw : SwitchTable) : option (list string) :=
  match lower_switch o sw with
  | LoweredOk code => Some (ir2_instruction <$> code)
  | LoweredError _ => None
  end.

(** The operands of [k] sentinel slots: [-1i8 @end] each. *)
Definition sentinel_args (sw : SwitchTable) (k : nat) : list Operand :=
  mjoin (replicate k [OInt Int8 (-1); OLabel (end_label sw)]).

(** An integer operand carries the width [int_width] gives its value. *)
Definition well_encoded (a : Operand) : Prop :=
  match a with
  | OInt w v => w = int_width v
  | _ => True
  end.

(** The orders on cases: by value. *)
Definition case_le (a b : Z * Label) : Prop := fst a <= fst b.
Definition case_lt (a b : Z * Label) : Prop := fst a < fst b.

(** [ProgramContext] with the [pedantic] option set to [b]. *)
Definition with_pedantic (b : bool) (pc : ProgramContext) : ProgramContext :=
  mkProgramContext (set_pedantic b (opt pc)) (error_count pc)
    (fatal_count pc) (warn_count pc) (stderr pc).

(** The three counters hold [uint32_t] values. *)
Definition counters_in_range (pc : ProgramContext) : Prop :=
  (error_count pc < 2 ^ 32)%N
  ∧ (fatal_count pc < 2 ^ 32)%N
  ∧ (warn_count pc < 2 ^ 32)%N.

(** The diagnostics of a job, reported one after the other. *)
Definition run_reports {Context} `{ErrorContext Context}
    (rs : list (Diagnostic * Context * string)) : Job unit :=
  sequence_ ((λ r, report r.1.1 r.1.2 r.2) <$> rs).

(** The kinds of a run of diagnostics. *)
Definition kinds {Context} (rs : list (Diagnostic * Context * string))
    : list Diagnostic :=
  (λ r, r.1.1) <$> rs.

(** The word each diagnostic method passes to [format_error]. *)
Definition kind_name (d : Diagnostic) : string :=
  match d with
  | DNote => "note"
  | DWarning => "warning"
  | DError => "error"
  | DFatalError => "fatal error"
  end.

Definition is_fatal (d : Diagnostic) : bool :=
  match d with
  | DFatalError => true
  | _ => false
  end.

Definition is_warning (d : Diagnostic) : bool :=
  match d with
  | DWarning => true
  | _ => false
  end.

Definition is_error (d : Diagnostic) : bool :=
  match d with
  | DError => true
  | _ => false
  end.

(** The diagnostics of a run up to and including its first fatal error. *)
Fixpoint effective {Context} (rs : list (Diagnostic * Context * string))
    : list (Diagnostic * Context * string) :=
  match rs with
  | [] => []
  | r :: rest => if is_fatal r.1.1 then [r] else r :: effective rest
  end.

(** * Properties *)

(** ** Strings *)

Lemma string_app_assoc (s1 s2 s3 : string) :
  (s1 +:+ s2) +:+ s3 = s1 +:+ (s2 +:+ s3).
Proof.
  induction s1 as [|a s1 IH]; [reflexivity|].
  change (String a ((s1 +:+ s2) +:+ s3) = String a (s1 +:+ (s2 +:+ s3))).
  by rewrite IH.
Qed.

Lemma nonempty_app_cons (s : string) (a : ascii) (t : string) :
  nonempty (s +:+ String a t) = true.
Proof. by destruct s. Qed.

(** ** Options *)

Lemma defines_set_defines (d : gmap string string) (o : Options) :
  defines (set_defines d o) = d.
Proof. reflexivity. Qed.

Lemma set_defines_twice (d d' : gmap string string) (o : Options) :
  set_defines d (set_defines d' o) = set_defines d o.
Proof. reflexivity. Qed.

Lemma defines_define (s v : string) (o : Options) :
  defines (define s v o) !! s = Some (from_option id v (defines o !! s)).
Proof.
  unfold define. destruct (defines o !! s) eqn:E; simpl.
  - exact E.
  - apply lookup_insert_eq.
Qed.

Lemma defines_define_ne (s s' v : string) (o : Options) :
  s' ≠ s → defines (define s' v o) !! s = defines o !! s.
Proof.
  intros Hne. unfold define. destruct (defines o !! s'); simpl; [done|].
  by apply lookup_insert_ne.
Qed.

Lemma defines_undefine (s : string) (o : Options) :
  defines (undefine s o) !! s = None.
Proof.
  unfold undefine. destruct (defines o !! s) eqn:E; simpl; [|exact E].
  apply lookup_delete_eq.
Qed.

Lemma defines_undefine_ne (s s' : string) (o : Options) :
  s' ≠ s → defines (undefine s' o) !! s = defines o !! s.
Proof.
  intros Hne. unfold undefine. destruct (defines o !! s'); simpl; [|done].
  by apply lookup_delete_ne.
Qed.

(** C9: for every [Options] value whose [header] is not
    [HeaderVersion::None], [get_header] returns a member of the target
    enumeration, and that member is [Liberty] for GTA3, [Miami] for
    GTAVC and [SanAndreas] for GTASA. *)
Theorem get_header_maps_config {TEnum} `{HeaderEnum TEnum} (o : Options) :
  header o ≠ HeaderVersion.None →
  is_Some (get_header (TEnum := TEnum) o)
  ∧ (header o = HeaderVersion.GTA3 → get_header o = Some (Liberty : TEnum))
  ∧ (header o = HeaderVersion.GTAVC → get_header o = Some (Miami : TEnum))
  ∧ (header o = HeaderVersion.GTASA → get_header o = Some (SanAndreas : TEnum)).
Proof.
  intros Hne. unfold get_header.
  destruct (header o); try congruence; repeat split; eauto; congruence.
Qed.

Lemma get_header_maps_config_witness :
  header (set_header HeaderVersion.GTASA default_options) ≠ HeaderVersion.None
  ∧ get_header (set_header HeaderVersion.GTASA default_options)
    = Some CompiledScmHeader.SanAndreas.
Proof.
  assert (Hne : header (set_header HeaderVersion.GTASA default_options)
                ≠ HeaderVersion.None) by (simpl; discriminate).
  split; [exact Hne|].
  destruct (get_header_maps_config (TEnum := CompiledScmHeader.Version)
              (set_header HeaderVersion.GTASA default_options) Hne)
    as (_ & _ & _ & Hsa).
  apply Hsa. reflexivity.
Defined.

(** C10, as stated, fails: when the symbol is already defined,
    [define(s, v1)] stores nothing, so the value kept by a later
    [define(s, v2)] is the earlier one and not [v1]. *)
Lemma define_keeps_v1_counterexample :
  let o := define "X" "0" default_options in
  defines (define "X" "2" (define "X" "1" o)) !! "X" = Some "0"
  ∧ defines (define "X" "2" (define "X" "1" o)) !! "X" ≠ Some "1".
Proof.
  assert (E : defines (define "X" "2" (define "X" "1"
                (define "X" "0" default_options))) !! "X" = Some "0").
  { rewrite !defines_define. reflexivity. }
  simpl. split; [exact E|]. rewrite E. discriminate.
Qed.

(** C10, amended: after [define(s, v1)] the symbol is defined; a later
    [define(s, v2)] changes nothing ([define(s, v2)] after
    [define(s, v1)] equals [define(s, v1)] alone), so the stored value
    stays what it was after [define(s, v1)]: [v1] when [s] was not
    defined before and the earlier value otherwise.  After [undefine(s)]
    the symbol is not defined, and neither a [define] nor an [undefine]
    of another symbol removes [s]. *)
Theorem define_does_not_overwrite (o : Options) (s v1 v2 : string) :
  is_defined s (define s v1 o) = true
  ∧ define s v2 (define s v1 o) = define s v1 o
  ∧ defines (define s v2 (define s v1 o)) !! s
    = Some (from_option id v1 (defines o !! s))
  ∧ is_defined s (undefine s o) = false
  ∧ (∀ s' v, is_defined s o = true → is_defined s (define s' v o) = true)
  ∧ (∀ s', s' ≠ s → is_defined s (undefine s' o) = is_defined s o).
Proof.
  assert (Hsame : define s v2 (define s v1 o) = define s v1 o).
  { unfold define at 1. by rewrite defines_define. }
  repeat split.
  - unfold is_defined. by rewrite defines_define.
  - exact Hsame.
  - rewrite Hsame. apply defines_define.
  - unfold is_defined. by rewrite defines_undefine.
  - intros s' v. unfold is_defined.
    destruct (decide (s' = s)) as [->|Hne].
    + by rewrite defines_define.
    + by rewrite defines_define_ne.
  - intros s' Hne. unfold is_defined. by rewrite defines_undefine_ne.
Qed.

(** ** format_error *)

(** C8: with a file name, a non-zero line, a non-zero column and a text
    stream, [format_error] yields [{file}:{line}:{col}: {kind}: {message}],
    a line feed, a blank and the source line, then a line feed and
    [col] blanks followed by the caret, which so stands under column
    [col] of the source line printed above it. *)
Theorem format_error_with_source (kind file msg : string)
    (stream : TokenStream.TextStream) (lineno colno : N) :
  lineno ≠ 0%N → colno ≠ 0%N →
  format_error (Some kind) (Some stream) (Some file) lineno colno msg
  = file +:+ ":" +:+ pretty lineno +:+ ":" +:+ pretty colno +:+ ": "
    +:+ kind +:+ ": " +:+ msg
    +:+ LF +:+ " " +:+ TokenStream.get_line stream lineno
    +:+ LF +:+ blanks (N.to_nat colno) +:+ "^".
Proof.
  intros Hl Hc. unfold format_error.
  apply N.eqb_neq in Hl. apply N.eqb_neq in Hc. rewrite Hl, Hc. simpl negb.
  cbv iota. simpl andb. cbv iota.
  change ("" +:+ file) with file.
  rewrite nonempty_app_cons.
  unfold fmt_right.
  replace (N.to_nat colno - String.length "^")%nat
    with (N.to_nat colno - 1)%nat by reflexivity.
  assert (Hb : " " +:+ blanks (N.to_nat colno - 1) +:+ "^"
               = blanks (N.to_nat colno) +:+ "^").
  { assert (Hpos : N.to_nat colno = S (N.to_nat colno - 1))
      by (apply N.eqb_neq in Hc; lia).
    rewrite Hpos at 2. reflexivity. }
  rewrite !string_app_assoc. rewrite Hb. reflexivity.
Qed.

Lemma format_error_with_source_witness :
  let stream :=
    TokenStream.mkTextStream "main.sc" (λ _, "WAIT 100") (λ _, (3%N, 6%N)) in
  3%N ≠ 0%N ∧ 6%N ≠ 0%N
  ∧ format_error (Some "error") (Some stream) (Some "main.sc") 3 6 "bad"
    = "main.sc:3:6: error: bad" +:+ LF +:+ " WAIT 100"
      +:+ LF +:+ "      ^".
Proof.
  intros stream.
  assert (H3 : 3%N ≠ 0%N) by discriminate.
  assert (H6 : 6%N ≠ 0%N) by discriminate.
  split; [exact H3|]. split; [exact H6|].
  rewrite (format_error_with_source "error" "main.sc" "bad" stream 3 6 H3 H6).
  reflexivity.
Defined.

Example format_error_nocontext_ex :
  format_error_at (Some "error") nocontext "too many cases"
  = "gta3sc: error: too many cases".
Proof. reflexivity. Qed.

Example format_error_script_ex :
  format_error_at (Some "warning") (mkScript "main.sc") "unused label"
  = "main.sc: warning: unused label".
Proof. reflexivity. Qed.

Example format_error_no_column_ex :
  format_error (Some "note") None (Some "main.sc") 12 0 "declared here"
  = "main.sc:12: note: declared here".
Proof. vm_compute. reflexivity. Qed.

(** ** Diagnostics *)

Section Diagnostics.
Context {Context : Type} `{ErrorContext Context}.

Lemma error_run (context : Context) (msg : string) (pc : ProgramContext) :
  error context msg pc
  = (Returned tt,
     mkProgramContext (opt pc) (wrap32 (error_count pc + 1)) (fatal_count pc)
       (warn_count pc)
       (stderr pc ++ [format_error_at (Some "error") context msg +:+ LF])).
Proof. reflexivity. Qed.

Lemma note_run (context : Context) (msg : string) (pc : ProgramContext) :
  note context msg pc
  = (Returned tt,
     mkProgramContext (opt pc) (error_count pc) (fatal_count pc)
       (warn_count pc)
       (stderr pc ++ [format_error_at (Some "note") context msg +:+ LF])).
Proof. reflexivity. Qed.

Lemma warning_run (context : Context) (msg : string) (pc : ProgramContext) :
  warning context msg pc
  = (Returned tt,
     mkProgramContext (opt pc) (error_count pc) (fatal_count pc)
       (wrap32 (warn_count pc + 1))
       (stderr pc ++ [format_error_at (Some "warning") context msg +:+ LF])).
Proof. reflexivity. Qed.

Lemma fatal_error_run {A} (context : Context) (msg : string)
    (pc : ProgramContext) :
  fatal_error (A := A) context msg pc
  = (Halted,
     mkProgramContext (opt pc) (error_count pc) (wrap32 (fatal_count pc + 1))
       (warn_count pc)
       (stderr pc
        ++ [format_error_at (Some "fatal error") context msg +:+ LF])).
Proof. reflexivity. Qed.

Lemma warnings_keep_errors (ws : list (Context * string)) (pc : ProgramContext) :
  ∃ pc', sequence_ ((λ w, warning w.1 w.2) <$> ws) pc = (Returned tt, pc')
         ∧ error_count pc' = error_count pc
         ∧ fatal_count pc' = fatal_count pc.
Proof.
  revert pc. induction ws as [|w ws IH]; intros pc.
  - by exists pc.
  - destruct (IH (warning w.1 w.2 pc).2) as (pc' & Hrun & He & Hf).
    exists pc'. split; [|by rewrite He, Hf].
    rewrite <- Hrun. reflexivity.
Qed.

(** C6: among the diagnostics, the fatal error and only it halts the
    job.  [fatal_error] adds one to the fatal counter, prints the
    message and leaves by the halt exception; [error] adds one to the
    error counter, prints and returns, whatever the counters hold. *)
Theorem halted_iff_fatal_error (d : Diagnostic) (context : Context)
    (msg : string) (pc : ProgramContext) :
  ((report d context msg pc).1 = Halted ↔ d = DFatalError)
  ∧ fatal_error (A := unit) context msg pc
    = (Halted,
       mkProgramContext (opt pc) (error_count pc)
         (wrap32 (fatal_count pc + 1)) (warn_count pc)
         (stderr pc
          ++ [format_error_at (Some "fatal error") context msg +:+ LF]))
  ∧ error context msg pc
    = (Returned tt,
       mkProgramContext (opt pc) (wrap32 (error_count pc + 1))
         (fatal_count pc) (warn_count pc)
         (stderr pc ++ [format_error_at (Some "error") context msg +:+ LF])).
Proof.
  split; [|split; reflexivity].
  destruct d; simpl; split; intros Hd; try discriminate; reflexivity.
Qed.

(** C7: [has_error] holds exactly when the error and fatal counters sum
    to more than zero.  [warning] adds one to the warning counter only
    and returns, so it never changes [has_error], and after any number
    of warnings in a fresh context [has_error] is false. *)
Theorem has_error_iff_errors_or_fatals (pc : ProgramContext) :
  (has_error pc = true ↔ (0 < error_count pc + fatal_count pc)%N)
  ∧ (∀ (context : Context) msg,
       warning context msg pc
       = (Returned tt,
          mkProgramContext (opt pc) (error_count pc) (fatal_count pc)
            (wrap32 (warn_count pc + 1))
            (stderr pc
             ++ [format_error_at (Some "warning") context msg +:+ LF])))
  ∧ (∀ (context : Context) msg,
       has_error (warning context msg pc).2 = has_error pc)
  ∧ (∀ (ws : list (Context * string)) (o : Options),
       (sequence_ ((λ w, warning w.1 w.2) <$> ws) (new_context o)).1
       = Returned tt
       ∧ has_error
           (sequence_ ((λ w, warning w.1 w.2) <$> ws) (new_context o)).2
         = false).
Proof.
  split; [|split; [|split]].
  - unfold has_error. rewrite orb_true_iff, !N.ltb_lt. lia.
  - intros. reflexivity.
  - intros. reflexivity.
  - intros ws o.
    destruct (warnings_keep_errors ws (new_context o)) as (pc' & -> & He & Hf).
    split; [reflexivity|]. simpl. unfold has_error. by rewrite He, Hf.
Qed.

(** C5, amended: a command that is known but not supported makes
    [supported_or_fatal] raise a fatal diagnostic, whether [pedantic] is
    off or on: the fatal counter goes up by one, the message is
    printed, the job halts, and the error counter is left alone. *)
Theorem unsupported_is_fatal (context : Context) (c : Command)
    (name : string) (pc : ProgramContext) (b : bool) :
  supported c = false →
  supported_or_fatal context (Some c) name (with_pedantic b pc)
  = (Halted,
     mkProgramContext (set_pedantic b (opt pc)) (error_count pc)
       (wrap32 (fatal_count pc + 1)) (warn_count pc)
       (stderr pc
        ++ [format_error_at (Some "fatal error") context
              ("command '" +:+ name +:+ "' undefined or unsupported")
            +:+ LF])).
Proof. intros Hs. unfold supported_or_fatal. rewrite Hs. reflexivity. Qed.

End Diagnostics.

Lemma unsupported_is_fatal_witness :
  supported (mkCommand "SWITCH_START" 2161 false) = false
  ∧ (supported_or_fatal nocontext (Some (mkCommand "SWITCH_START" 2161 false))
       "SWITCH_START" (with_pedantic true (new_context default_options))).1
    = Halted.
Proof.
  split; [reflexivity|].
  rewrite (unsupported_is_fatal nocontext
             (mkCommand "SWITCH_START" 2161 false) "SWITCH_START"
             (new_context default_options) true eq_refl).
  reflexivity.
Defined.

(** C5, as stated, fails: with [pedantic] on, the reference to an
    unsupported command still halts the job through the fatal counter;
    it does not return, and the error counter stays at zero. *)
Lemma unsupported_pedantic_counterexample :
  let pc := new_context (set_pedantic true default_options) in
  let c := mkCommand "SWITCH_START" 2161 false in
  let r := supported_or_fatal nocontext (Some c) "SWITCH_START" pc in
  pedantic (opt pc) = true
  ∧ supported c = false
  ∧ r.1 = Halted
  ∧ fatal_count r.2 = 1%N
  ∧ error_count r.2 = 0%N
  ∧ ¬ (∃ c', r.1 = Returned c' ∧ error_count r.2 = 1%N).
Proof.
  simpl. repeat split; intros (c' & Hr & _); discriminate.
Qed.

(** ** Ordering the cases *)

Lemma has_duplicate_NoDup (vs : list Z) :
  has_duplicate vs = false ↔ NoDup vs.
Proof.
  induction vs as [|v vs IH]; simpl.
  - split; [constructor|done].
  - rewrite orb_false_iff, IH, NoDup_cons. apply and_iff_compat_r.
    split.
    + intros Hex Hin. apply not_true_iff_false in Hex. apply Hex.
      apply existsb_exists. exists v. split; [by apply list_elem_of_In|].
      apply Z.eqb_refl.
    + intros Hnin. apply not_true_iff_false. intros Hex.
      apply existsb_exists in Hex as (x & Hin & Heq).
      apply Z.eqb_eq in Heq as <-. by apply Hnin, list_elem_of_In.
Qed.

Lemma insert_case_perm (c : Z * Label) (l : list (Z * Label)) :
  insert_case c l ≡ₚ c :: l.
Proof.
  induction l as [|d l IH]; simpl; [done|].
  destruct (fst c <=? fst d); [done|].
  rewrite IH. apply Permutation_swap.
Qed.

Lemma sort_cases_perm (l : list (Z * Label)) : sort_cases l ≡ₚ l.
Proof.
  induction l as [|c l IH]; simpl; [done|].
  by rewrite insert_case_perm, IH.
Qed.

Lemma insert_case_sorted (c : Z * Label) (l : list (Z * Label)) :
  StronglySorted case_le l → StronglySorted case_le (insert_case c l).
Proof.
  induction 1 as [|d l Hl IH Hd]; simpl.
  - repeat constructor.
  - destruct (Z.leb_spec (fst c) (fst d)) as [Hle|Hgt].
    + constructor; [by constructor|].
      constructor; [exact Hle|].
      eapply Forall_impl; [exact Hd|]. unfold case_le. intros; lia.
    + constructor; [exact IH|].
      rewrite insert_case_perm. constructor; [unfold case_le; lia|exact Hd].
Qed.

Lemma sort_cases_sorted (l : list (Z * Label)) :
  StronglySorted case_le (sort_cases l).
Proof.
  induction l as [|c l IH]; simpl; [constructor|].
  by apply insert_case_sorted.
Qed.

Lemma sorted_le_lt (l : list (Z * Label)) :
  StronglySorted case_le l → NoDup l.*1 → StronglySorted case_lt l.
Proof.
  induction 1 as [|d l Hl IH Hd]; [constructor|].
  rewrite fmap_cons, NoDup_cons. intros [Hnin Hnd].
  constructor; [by apply IH|].
  rewrite Forall_forall in Hd |- *. intros x Hx.
  specialize (Hd x Hx). unfold case_le in Hd. unfold case_lt.
  assert (fst d ≠ fst x); [|lia].
  intros Heq. apply Hnin. rewrite Heq. by apply list_elem_of_fmap_2.
Qed.

Lemma sort_cases_strict (l : list (Z * Label)) :
  NoDup l.*1 → StronglySorted case_lt (sort_cases l).
Proof.
  intros Hnd. apply sorted_le_lt; [apply sort_cases_sorted|].
  by rewrite (sort_cases_perm l).
Qed.

#[local] Instance case_lt_antisym : AntiSymm (=) case_lt.
Proof. intros a b. unfold case_lt. lia. Qed.

Lemma sort_cases_order_irrelevant (l l' : list (Z * Label)) :
  NoDup l.*1 → l' ≡ₚ l → sort_cases l' = sort_cases l.
Proof.
  intros Hnd Hp.
  apply (StronglySorted_unique case_lt).
  - apply sort_cases_strict. by rewrite Hp.
  - by apply sort_cases_strict.
  - by rewrite !sort_cases_perm.
Qed.

(** ** The integer encoder *)

Lemma fits_int_width (v : Z) :
  -2147483648 <= v <= 2147483647 → fits (int_width v) v = true.
Proof.
  intros Hv. unfold int_width.
  destruct (Z.leb_spec (-128) v), (Z.leb_spec v 127); simpl;
    try (apply andb_true_iff; split; apply Z.leb_le; simpl; lia);
    destruct (Z.leb_spec (-32768) v), (Z.leb_spec v 32767); simpl;
    apply andb_true_iff; split; apply Z.leb_le; simpl; lia.
Qed.

Lemma int_width_minimal (v : Z) (w : IntWidth) :
  fits w v = true → width_bits (int_width v) <= width_bits w.
Proof.
  unfold fits, int_width. intros [H1 H2]%andb_true_iff.
  apply Z.leb_le in H1, H2.
  destruct w; simpl in *;
    destruct (Z.leb_spec (-128) v), (Z.leb_spec v 127); simpl; try lia;
    destruct (Z.leb_spec (-32768) v), (Z.leb_spec v 32767); simpl; lia.
Qed.

(** ** The emitted instructions *)

Lemma slot_args_app (l1 l2 : list (Z * Label)) :
  slot_args (l1 ++ l2) = slot_args l1 ++ slot_args l2.
Proof. unfold slot_args. apply bind_app. Qed.

Lemma slot_args_length (l : list (Z * Label)) :
  length (slot_args l) = (2 * length l)%nat.
Proof.
  unfold slot_args. induction l as [|c l IH]; [done|].
  rewrite bind_cons, length_app, IH. simpl. lia.
Qed.

Lemma slot_args_sentinel (sw : SwitchTable) (k : nat) :
  slot_args (replicate k (sentinel sw)) = sentinel_args sw k.
Proof.
  unfold slot_args, sentinel_args.
  induction k as [|k IH]; [done|].
  simpl replicate. rewrite bind_cons, IH. reflexivity.
Qed.

Lemma slot_args_fill (op : Opcode) (sw : SwitchTable) (l : list (Z * Label)) :
  slot_args (fill op sw l)
  = slot_args l ++ sentinel_args sw (capacity op - length l).
Proof. unfold fill. by rewrite slot_args_app, slot_args_sentinel. Qed.

Lemma fill_length (op : Opcode) (sw : SwitchTable) (l : list (Z * Label)) :
  (length l ≤ capacity op)%nat → length (fill op sw l) = capacity op.
Proof. intros Hl. unfold fill. rewrite length_app, length_replicate. lia. Qed.

Lemma slot_args_well_encoded (l : list (Z * Label)) :
  Forall well_encoded (slot_args l).
Proof.
  unfold slot_args. induction l as [|c l IH]; [constructor|].
  rewrite bind_cons. simpl. by repeat constructor.
Qed.

Lemma switch_continued_cons (sw : SwitchTable) (l : list (Z * Label)) :
  l ≠ [] →
  switch_continued sw l
  = mkInstruction SWITCH_CONTINUED
      (slot_args (fill SWITCH_CONTINUED sw (take 9 l)))
    :: switch_continued sw (drop 9 l).
Proof.
  destruct l as [|c l]; [done|]. intros _.
  by rewrite switch_continued_equation_2.
Qed.

(** An induction that follows the loop: nine cases at a time. *)
Lemma by_nines (P : list (Z * Label) → Prop) :
  P [] → (∀ l, l ≠ [] → P (drop 9 l) → P l) → ∀ l, P l.
Proof.
  intros Hnil Hstep l.
  remember (length l) as n eqn:Hn. revert l Hn.
  induction n as [n IH] using lt_wf_ind. intros l Hn.
  destruct l as [|c l]; [exact Hnil|].
  apply Hstep; [done|].
  apply (IH (length (drop 9 (c :: l)))); [|done].
  subst n. rewrite length_drop. simpl. lia.
Qed.

(** [ceil_div a b] is the least integer [q] with [a <= b * q]. *)
Lemma ceil_div_spec (a b : Z) :
  0 < b → b * (ceil_div a b - 1) < a <= b * ceil_div a b.
Proof.
  intros Hb. unfold ceil_div.
  pose proof (Z.div_mod (- a) b ltac:(lia)).
  pose proof (Z.mod_pos_bound (- a) b Hb).
  nia.
Qed.

Example ceil_div_examples :
  ceil_div (-7) 9 = 0 ∧ ceil_div 0 9 = 0 ∧ ceil_div 2 9 = 1
  ∧ ceil_div 9 9 = 1 ∧ ceil_div 10 9 = 2.
Proof. repeat split. Qed.

Lemma switch_continued_length (sw : SwitchTable) (l : list (Z * Label)) :
  Z.of_nat (length (switch_continued sw l))
  = ceil_div (Z.of_nat (length l)) 9.
Proof.
  induction l as [|l Hne IH] using by_nines.
  - by rewrite switch_continued_equation_1.
  - rewrite switch_continued_cons by done.
    rewrite length_cons, Nat2Z.inj_succ, IH, length_drop.
    assert (0 < length l)%nat by (destruct l; [done|simpl; lia]).
    unfold ceil_div.
    destruct (decide (length l ≤ 9)%nat) as [Hle|Hgt].
    + replace (length l - 9)%nat with 0%nat by lia.
      change (- Z.of_nat 0 / 9) with 0.
      assert (- Z.of_nat (length l) / 9 = -1); [|lia].
      symmetry. apply (Z.div_unique _ 9 (-1) (9 - Z.of_nat (length l))); lia.
    + rewrite Nat2Z.inj_sub by lia.
      replace (- (Z.of_nat (length l) - Z.of_nat 9))
        with (- Z.of_nat (length l) + 1 * 9) by lia.
      rewrite Z.div_add by lia. lia.
Qed.

Lemma switch_continued_opcode (sw : SwitchTable) (l : list (Z * Label)) :
  Forall (λ i, instr_opcode i = SWITCH_CONTINUED) (switch_continued sw l).
Proof.
  induction l as [|l Hne IH] using by_nines.
  - rewrite switch_continued_equation_1. constructor.
  - rewrite switch_continued_cons by done. by constructor.
Qed.

Lemma switch_continued_lookup (sw : SwitchTable) (l : list (Z * Label))
    (k : nat) :
  (k < length (switch_continued sw l))%nat →
  switch_continued sw l !! k
  = Some (mkInstruction SWITCH_CONTINUED
            (slot_args (fill SWITCH_CONTINUED sw
                          (take 9 (drop (9 * k) l))))).
Proof.
  revert k. induction l as [|l Hne IH] using by_nines; intros k.
  - rewrite switch_continued_equation_1. simpl. lia.
  - rewrite switch_continued_cons by done.
    rewrite length_cons. intros Hk.
    destruct k as [|k]; [reflexivity|].
    rewrite lookup_cons, IH by lia.
    rewrite drop_drop.
    by replace (9 + 9 * k)%nat with (9 * S k)%nat by lia.
Qed.

Lemma switch_continued_full (sw : SwitchTable) (l : list (Z * Label)) :
  Forall (λ i, length (instr_slots i) = (2 * capacity (instr_opcode i))%nat)
    (switch_continued sw l).
Proof.
  induction l as [|l Hne IH] using by_nines.
  - rewrite switch_continued_equation_1. constructor.
  - rewrite switch_continued_cons by done. constructor; [|exact IH].
    unfold instr_slots. cbn [instr_opcode args].
    rewrite slot_args_length, fill_length; [done|].
    rewrite length_take. unfold capacity. lia.
Qed.

Lemma switch_continued_well_encoded (sw : SwitchTable) (l : list (Z * Label)) :
  Forall (λ i, Forall well_encoded (args i)) (switch_continued sw l).
Proof.
  induction l as [|l Hne IH] using by_nines.
  - rewrite switch_continued_equation_1. constructor.
  - rewrite switch_continued_cons by done. constructor; [|exact IH].
    apply slot_args_well_encoded.
Qed.

(** The last overflow instruction holds the cases that remain. *)
Lemma switch_continued_last (sw : SwitchTable) (l : list (Z * Label)) :
  l ≠ [] →
  ∃ off, (off < length l ≤ off + 9)%nat
         ∧ last (switch_continued sw l)
           = Some (mkInstruction SWITCH_CONTINUED
                     (slot_args (fill SWITCH_CONTINUED sw (drop off l)))).
Proof.
  induction l as [|l Hne IH] using by_nines; [done|]. intros _.
  rewrite switch_continued_cons by done.
  assert (0 < length l)%nat by (destruct l; [done|simpl; lia]).
  destruct (decide (length l ≤ 9)%nat) as [Hle|Hgt].
  - exists 0%nat. split; [lia|].
    rewrite (drop_ge l 9) by lia. rewrite switch_continued_equation_1.
    rewrite (take_ge l 9) by lia. reflexivity.
  - destruct IH as (off & Hoff & Hlast).
    { intros Hnil. apply (f_equal length) in Hnil.
      rewrite length_drop in Hnil. simpl in Hnil. lia. }
    rewrite length_drop in Hoff.
    exists (9 + off)%nat. split; [lia|].
    rewrite last_cons, Hlast. by rewrite drop_drop.
Qed.

Lemma lower_switch_ok (o : Options) (sw : SwitchTable)
    (code : list Instruction) :
  lower_switch o sw = LoweredOk code →
  NoDup (cases sw).*1 ∧ code = emit_switch sw.
Proof.
  unfold lower_switch.
  destruct (has_duplicate (cases sw).*1) eqn:Hd; [done|].
  apply has_duplicate_NoDup in Hd. intros Hok. split; [exact Hd|].
  destruct (switch_case_limit o) as [limit|];
    [destruct (limit <? _)%N; [done|]|]; congruence.
Qed.

Lemma switch_continued_ext (sw sw' : SwitchTable) (l : list (Z * Label)) :
  end_label sw' = end_label sw →
  switch_continued sw' l = switch_continued sw l.
Proof.
  intros He. induction l as [|l Hne IH] using by_nines.
  - by rewrite !switch_continued_equation_1.
  - rewrite (switch_continued_cons sw' l), (switch_continued_cons sw l)
      by done.
    rewrite IH. unfold fill, sentinel. by rewrite He.
Qed.

Lemma sort_cases_length (l : list (Z * Label)) :
  length (sort_cases l) = length l.
Proof. apply Permutation_length, sort_cases_perm. Qed.

Lemma emit_switch_well_encoded (sw : SwitchTable) :
  Forall (λ i, Forall well_encoded (args i)) (emit_switch sw).
Proof.
  unfold emit_switch. constructor; [|apply switch_continued_well_encoded].
  cbn [args]. apply Forall_app. split; [|apply slot_args_well_encoded].
  unfold switch_header, conv_int.
  repeat (apply Forall_cons; split; [exact I || reflexivity|]).
  apply Forall_nil_2.
Qed.

Lemma emit_switch_unfold (sw : SwitchTable) :
  emit_switch sw
  = mkInstruction SWITCH_START
      (switch_header sw ++ slot_args (take 7 (sort_cases (cases sw)))
       ++ sentinel_args sw (7 - length (cases sw)))
    :: switch_continued sw (drop 7 (sort_cases (cases sw))).
Proof.
  unfold emit_switch.
  rewrite slot_args_fill, length_take, sort_cases_length.
  do 4 f_equal. apply (f_equal (sentinel_args sw)). unfold capacity. lia.
Qed.

(** C1: a lowered SWITCH with [n] cases is one SWITCH_START holding the
    first (up to seven) cases followed by exactly
    [max(0, ceil((n - 7) / 9))] SWITCH_CONTINUEDs; the [k]-th of them
    holds the next nine cases after the [7 + 9k] before it, and all but
    the last hold nine.  With nine cases: one SWITCH_START with seven
    and one SWITCH_CONTINUED with the remaining two. *)
Theorem switch_instruction_count (o : Options) (sw : SwitchTable)
    (code : list Instruction) :
  lower_switch o sw = LoweredOk code →
  let n := length (cases sw) in
  let sorted := sort_cases (cases sw) in
  ∃ start conts,
    code = start :: conts
    ∧ start = mkInstruction SWITCH_START
                (switch_header sw ++ slot_args (take 7 sorted)
                 ++ sentinel_args sw (7 - n))
    ∧ Forall (λ i, instr_opcode i = SWITCH_CONTINUED) conts
    ∧ Z.of_nat (length conts) = Z.max 0 (ceil_div (Z.of_nat n - 7) 9)
    ∧ (∀ k, (k < length conts)%nat →
         conts !! k
         = Some (mkInstruction SWITCH_CONTINUED
                   (slot_args (take 9 (drop (7 + 9 * k) sorted))
                    ++ sentinel_args sw (9 - (n - (7 + 9 * k))))))
    ∧ (∀ k, (S k < length conts)%nat →
         length (take 9 (drop (7 + 9 * k) sorted)) = 9%nat)
    ∧ (n = 9%nat →
       length (take 7 sorted) = 7%nat
       ∧ conts = [mkInstruction SWITCH_CONTINUED
                    (slot_args (drop 7 sorted) ++ sentinel_args sw 7)]
       ∧ length (drop 7 sorted) = 2%nat).
Proof.
  intros [Hnd ->]%lower_switch_ok n sorted.
  assert (Hlen : length sorted = n) by apply sort_cases_length.
  assert (Hcount : Z.of_nat (length (switch_continued sw (drop 7 sorted)))
                   = Z.max 0 (ceil_div (Z.of_nat n - 7) 9)).
  { rewrite switch_continued_length, length_drop, Hlen. unfold ceil_div.
    destruct (decide (n ≤ 7)%nat) as [Hle|Hgt].
    - replace (n - 7)%nat with 0%nat by lia. change (- Z.of_nat 0 / 9) with 0.
      assert (- (Z.of_nat n - 7) / 9 = 0); [|lia].
      apply Z.div_small. lia.
    - rewrite Nat2Z.inj_sub by lia. change (Z.of_nat 7) with 7.
      assert (- (Z.of_nat n - 7) / 9 < 0); [|lia].
      apply Z.div_lt_upper_bound; lia. }
  assert (Hlookup : ∀ k, (k < length (switch_continued sw (drop 7 sorted)))%nat →
            switch_continued sw (drop 7 sorted) !! k
            = Some (mkInstruction SWITCH_CONTINUED
                      (slot_args (take 9 (drop (7 + 9 * k) sorted))
                       ++ sentinel_args sw (9 - (n - (7 + 9 * k)))))).
  { intros k Hk. rewrite switch_continued_lookup by done.
    rewrite slot_args_fill, drop_drop, length_take, length_drop, Hlen.
    do 3 f_equal. apply (f_equal (sentinel_args sw)). unfold capacity. lia. }
  exists (mkInstruction SWITCH_START
            (switch_header sw ++ slot_args (take 7 sorted)
             ++ sentinel_args sw (7 - n))),
         (switch_continued sw (drop 7 sorted)).
  split; [|split; [reflexivity|split; [apply switch_continued_opcode|]]].
  { apply emit_switch_unfold. }
  split; [exact Hcount|]. split; [exact Hlookup|]. split.
  - intros k Hk. rewrite length_take, length_drop, Hlen.
    assert (Hz : Z.of_nat (S k) < Z.max 0 (ceil_div (Z.of_nat n - 7) 9)) by lia.
    unfold ceil_div in Hz.
    assert (9 * Z.of_nat (S k) < Z.of_nat n - 7); [|lia].
    destruct (Z.max_spec 0 (- (- (Z.of_nat n - 7) / 9))) as [[_ Hm]|[_ Hm]];
      rewrite Hm in Hz; [|lia].
    pose proof (Z.div_mod (- (Z.of_nat n - 7)) 9 ltac:(lia)) as Hdm.
    pose proof (Z.mod_pos_bound (- (Z.of_nat n - 7)) 9 ltac:(lia)) as Hmb.
    lia.
  - intros Hn9. rewrite length_take, length_drop, Hlen, Hn9.
    split; [reflexivity|]. split; [|reflexivity].
    assert (Hone : length (switch_continued sw (drop 7 sorted)) = 1%nat).
    { rewrite Hn9 in Hcount. change (ceil_div (Z.of_nat 9 - 7) 9) with 1 in Hcount.
      lia. }
    pose proof (Hlookup 0%nat ltac:(lia)) as H0.
    destruct (switch_continued sw (drop 7 sorted)) as [|i [|i' rest]];
      [done| |done].
    simpl in H0. injection H0 as ->.
    rewrite Hn9. simpl Nat.sub.
    rewrite (take_ge (drop _ _)); [done|].
    rewrite length_drop, Hlen, Hn9. simpl. lia.
Qed.

Lemma switch_instruction_count_witness :
  lower_switch default_options switch_sa_3 = LoweredOk (emit_switch switch_sa_3)
  ∧ ∃ start conts,
      emit_switch switch_sa_3 = start :: conts
      ∧ instr_opcode start = SWITCH_START
      ∧ Z.of_nat (length conts) = 1.
Proof.
  assert (Hok : lower_switch default_options switch_sa_3
                = LoweredOk (emit_switch switch_sa_3)) by reflexivity.
  split; [exact Hok|].
  destruct (switch_instruction_count default_options switch_sa_3
              (emit_switch switch_sa_3) Hok)
    as (start & conts & Hcode & Hstart & _ & Hcount & _).
  exists start, conts. split; [exact Hcode|]. split.
  - rewrite Hstart. reflexivity.
  - rewrite Hcount. reflexivity.
Defined.

Lemma mjoin_cons {A} (x : list A) (l : list (list A)) :
  mjoin (x :: l) = x ++ mjoin l.
Proof. reflexivity. Qed.

Lemma sentinel_args_0 (sw : SwitchTable) : sentinel_args sw 0 = [].
Proof. reflexivity. Qed.

Lemma switch_continued_slots (sw : SwitchTable) (l : list (Z * Label)) :
  mjoin (instr_slots <$> switch_continued sw l)
  = slot_args l
    ++ sentinel_args sw (9 * length (switch_continued sw l) - length l).
Proof.
  induction l as [|l Hne IH] using by_nines.
  - by rewrite switch_continued_equation_1.
  - rewrite switch_continued_cons by done.
    rewrite fmap_cons, mjoin_cons, IH, length_cons.
    unfold instr_slots at 1. cbn [instr_opcode args].
    rewrite slot_args_fill, length_take, length_drop.
    assert (0 < length l)%nat by (destruct l; [done|simpl; lia]).
    destruct (decide (length l ≤ 9)%nat) as [Hle|Hgt].
    + rewrite (drop_ge l 9) by lia. rewrite switch_continued_equation_1.
      rewrite (take_ge l 9) by lia. simpl length.
      replace (9 * 0 - (length l - 9))%nat with 0%nat by lia.
      rewrite sentinel_args_0, !app_nil_r.
      f_equal. apply (f_equal (sentinel_args sw)). unfold capacity. lia.
    + replace (capacity SWITCH_CONTINUED - 9 `min` length l)%nat
        with 0%nat by (unfold capacity; lia).
      rewrite sentinel_args_0, app_nil_r, app_assoc, <- slot_args_app.
      rewrite take_drop. f_equal. apply (f_equal (sentinel_args sw)).
      pose proof (switch_continued_length sw (drop 9 l)) as Hl.
      rewrite length_drop in Hl. unfold ceil_div in Hl.
      assert (Z.of_nat (length l - 9) <=
              9 * Z.of_nat (length (switch_continued sw (drop 9 l)))).
      { rewrite Hl.
        pose proof (Z.div_mod (- Z.of_nat (length l - 9)) 9 ltac:(lia)).
        pose proof (Z.mod_pos_bound (- Z.of_nat (length l - 9)) 9 ltac:(lia)).
        lia. }
      lia.
Qed.

(** C2: the SWITCH_START of a lowered SWITCH has, after the
    discriminant, the case count, then (behind the has-default flag)
    the default label, then the case slots; the cases are emitted in
    ascending order of their values, each with its own label, whatever
    their order in the source. *)
Theorem switch_start_sorted (o : Options) (sw : SwitchTable)
    (code : list Instruction) :
  lower_switch o sw = LoweredOk code →
  let sorted := sort_cases (cases sw) in
  (∃ conts,
     code = mkInstruction SWITCH_START
              ([ OVar (discriminant_var sw);
                 conv_int (Z.of_nat (length (cases sw)));
                 conv_int (match default sw with Some _ => 1 | None => 0 end);
                 OLabel (default_label sw) ]
               ++ slot_args (take 7 sorted)
               ++ sentinel_args sw (7 - length (cases sw)))
            :: conts)
  ∧ (∀ l, default sw = Some l → default_label sw = l)
  ∧ sorted ≡ₚ cases sw
  ∧ StronglySorted case_lt sorted
  ∧ (∀ sw', cases sw' ≡ₚ cases sw →
            discriminant_var sw' = discriminant_var sw →
            default sw' = default sw →
            end_label sw' = end_label sw →
            lower_switch o sw' = LoweredOk code).
Proof.
  intros Hok sorted.
  pose proof (lower_switch_ok _ _ _ Hok) as [Hnd Hemit].
  split; [exists (switch_continued sw (drop 7 sorted));
          by rewrite Hemit, emit_switch_unfold|].
  split; [intros l Hl; unfold default_label; by rewrite Hl|].
  split; [apply sort_cases_perm|].
  split; [by apply sort_cases_strict|].
  intros sw' Hp Hdisc Hdef Hend.
  assert (Hlen : length (cases sw') = length (cases sw))
    by (by apply Permutation_length).
  assert (Hnd' : NoDup (cases sw').*1) by (by rewrite Hp).
  assert (Hemit' : emit_switch sw' = emit_switch sw).
  { unfold emit_switch, switch_header, default_label, fill, sentinel.
    rewrite (sort_cases_order_irrelevant (cases sw) (cases sw') Hnd Hp).
    rewrite (switch_continued_ext sw sw' _ Hend).
    by rewrite Hlen, Hdisc, Hdef, Hend. }
  rewrite <- Hok. unfold lower_switch.
  rewrite Hlen, Hemit'.
  by rewrite (proj2 (has_duplicate_NoDup _) Hnd),
             (proj2 (has_duplicate_NoDup _) Hnd').
Qed.

Lemma switch_start_sorted_witness :
  lower_switch default_options switch_sa_1 = LoweredOk (emit_switch switch_sa_1)
  ∧ sort_cases (cases switch_sa_1) ≡ₚ cases switch_sa_1
  ∧ StronglySorted case_lt (sort_cases (cases switch_sa_1)).
Proof.
  assert (Hok : lower_switch default_options switch_sa_1
                = LoweredOk (emit_switch switch_sa_1)) by reflexivity.
  split; [exact Hok|].
  destruct (switch_start_sorted default_options switch_sa_1
              (emit_switch switch_sa_1) Hok)
    as (_ & _ & Hperm & Hsorted & _).
  split; [exact Hperm|exact Hsorted].
Defined.

Lemma emit_switch_full (sw : SwitchTable) :
  Forall (λ i, length (instr_slots i) = (2 * capacity (instr_opcode i))%nat)
    (emit_switch sw).
Proof.
  unfold emit_switch. constructor; [|apply switch_continued_full].
  unfold instr_slots, switch_header. cbn [instr_opcode args].
  change (drop 4 ([?a; ?b; ?c; ?d] ++ ?x)) with x.
  rewrite slot_args_length, fill_length; [done|].
  rewrite length_take. unfold capacity. lia.
Qed.

Lemma emit_switch_slots (sw : SwitchTable) :
  mjoin (instr_slots <$> emit_switch sw)
  = slot_args (sort_cases (cases sw))
    ++ sentinel_args sw
         (7 + 9 * (length (emit_switch sw) - 1) - length (cases sw)).
Proof.
  rewrite emit_switch_unfold, fmap_cons, mjoin_cons, length_cons.
  rewrite switch_continued_slots.
  unfold instr_slots at 1, switch_header. cbn [instr_opcode args].
  change (drop 4 ([?a; ?b; ?c; ?d] ++ ?x)) with x.
  set (sorted := sort_cases (cases sw)).
  set (conts := switch_continued sw (drop 7 sorted)).
  assert (Hlen : length sorted = length (cases sw))
    by apply sort_cases_length.
  replace (S (length conts) - 1)%nat with (length conts) by lia.
  rewrite length_drop, Hlen.
  destruct (decide (length (cases sw) ≤ 7)%nat) as [Hle|Hgt].
  - assert (Hnil : drop 7 sorted = []) by (apply drop_ge; lia).
    subst conts. rewrite Hnil, switch_continued_equation_1.
    rewrite (take_ge sorted 7) by lia. simpl length.
    change (slot_args []) with (@nil Operand).
    replace (9 * 0 - (length (cases sw) - 7))%nat with 0%nat by lia.
    replace (7 + 9 * 0 - length (cases sw))%nat
      with (7 - length (cases sw))%nat by lia.
    by rewrite sentinel_args_0, !app_nil_r.
  - replace (7 - length (cases sw))%nat with 0%nat by lia.
    rewrite sentinel_args_0, app_nil_r, app_assoc, <- slot_args_app.
    rewrite take_drop.
    pose proof (switch_continued_length sw (drop 7 sorted)) as Hl.
    rewrite length_drop, Hlen in Hl. unfold ceil_div in Hl. fold conts in Hl.
    assert (Z.of_nat (length (cases sw) - 7) <= 9 * Z.of_nat (length conts)).
    { rewrite Hl.
      pose proof (Z.div_mod (- Z.of_nat (length (cases sw) - 7)) 9
                    ltac:(lia)).
      pose proof (Z.mod_pos_bound (- Z.of_nat (length (cases sw) - 7)) 9
                    ltac:(lia)).
      lia. }
    replace (9 * length conts - (length (cases sw) - 7))%nat
      with (7 + 9 * length conts - length (cases sw))%nat by lia.
    reflexivity.
Qed.

Lemma emit_switch_last (sw : SwitchTable) :
  ∃ li off,
    last (emit_switch sw) = Some li
    ∧ (off ≤ length (cases sw) ≤ off + capacity (instr_opcode li))%nat
    ∧ instr_slots li
      = slot_args (drop off (sort_cases (cases sw)))
        ++ sentinel_args sw
             (capacity (instr_opcode li) - (length (cases sw) - off)).
Proof.
  unfold emit_switch.
  set (sorted := sort_cases (cases sw)).
  assert (Hlen : length sorted = length (cases sw))
    by apply sort_cases_length.
  destruct (decide (length (cases sw) ≤ 7)%nat) as [Hle|Hgt].
  - rewrite (drop_ge sorted 7) by lia. rewrite switch_continued_equation_1.
    eexists _, 0%nat. split; [reflexivity|].
    cbn [instr_opcode]. split; [unfold capacity; lia|].
    unfold instr_slots, switch_header. cbn [instr_opcode args].
    change (drop 4 ([?a; ?b; ?c; ?d] ++ ?x)) with x.
    rewrite slot_args_fill, (take_ge sorted 7), Hlen by lia.
    rewrite drop_0, Nat.sub_0_r. reflexivity.
  - destruct (switch_continued_last sw (drop 7 sorted)) as (off & Hoff & Hl).
    { intros Hnil. apply (f_equal length) in Hnil.
      rewrite length_drop, Hlen in Hnil. simpl in Hnil. lia. }
    rewrite length_drop, Hlen in Hoff.
    eexists _, (7 + off)%nat. rewrite last_cons, Hl.
    split; [reflexivity|]. cbn [instr_opcode].
    split; [unfold capacity; lia|].
    unfold instr_slots. cbn [instr_opcode args].
    rewrite slot_args_fill, drop_drop, length_drop, Hlen.
    reflexivity.
Qed.

(** C3: in a lowered SWITCH every instruction's slot array is full
    (seven slots in SWITCH_START, nine in SWITCH_CONTINUED); the slots,
    taken in order, are the cases followed by sentinel pairs only, and
    the last instruction holds the cases that remain followed by
    sentinels up to its capacity.  A sentinel is [-1] encoded as int8
    with the end label.  Without a DEFAULT the default-label operand of
    SWITCH_START is the end label. *)
Theorem switch_padding (o : Options) (sw : SwitchTable)
    (code : list Instruction) :
  lower_switch o sw = LoweredOk code →
  Forall (λ i, length (instr_slots i) = (2 * capacity (instr_opcode i))%nat)
    code
  ∧ mjoin (instr_slots <$> code)
    = slot_args (sort_cases (cases sw))
      ++ sentinel_args sw (7 + 9 * (length code - 1) - length (cases sw))
  ∧ (∃ li off,
       last code = Some li
       ∧ (off ≤ length (cases sw) ≤ off + capacity (instr_opcode li))%nat
       ∧ instr_slots li
         = slot_args (drop off (sort_cases (cases sw)))
           ++ sentinel_args sw
                (capacity (instr_opcode li) - (length (cases sw) - off)))
  ∧ (∀ k, sentinel_args sw (S k)
          = OInt Int8 (-1) :: OLabel (end_label sw) :: sentinel_args sw k)
  ∧ conv_int (-1) = OInt Int8 (-1)
  ∧ (default sw = None →
     ∃ slots conts,
       code = mkInstruction SWITCH_START
                ([ OVar (discriminant_var sw);
                   conv_int (Z.of_nat (length (cases sw)));
                   conv_int 0;
                   OLabel (end_label sw) ] ++ slots)
              :: conts).
Proof.
  intros [_ ->]%lower_switch_ok.
  split; [apply emit_switch_full|].
  split; [apply emit_switch_slots|].
  split; [apply emit_switch_last|].
  split; [reflexivity|]. split; [reflexivity|].
  intros Hdef. unfold emit_switch, switch_header, default_label.
  rewrite Hdef. eauto.
Qed.

Lemma switch_padding_witness :
  lower_switch default_options switch_sa_2 = LoweredOk (emit_switch switch_sa_2)
  ∧ mjoin (instr_slots <$> emit_switch switch_sa_2)
    = slot_args [(50, "MAIN_9"); (100, "MAIN_7"); (200, "MAIN_8")]
      ++ sentinel_args switch_sa_2 4.
Proof.
  assert (Hok : lower_switch default_options switch_sa_2
                = LoweredOk (emit_switch switch_sa_2)) by reflexivity.
  split; [exact Hok|].
  destruct (switch_padding default_options switch_sa_2
              (emit_switch switch_sa_2) Hok) as (_ & Hslots & _).
  rewrite Hslots. reflexivity.
Defined.

(** C4: an integer literal is emitted in the smallest signed width that
    holds its value: int8 within [-128, 127], else int16 within
    [-32768, 32767], else int32; every integer operand of a lowered
    SWITCH (count, flag, case values, sentinels) is encoded so.  Hence
    50 and 100 are int8, and 200 to 900 are int16. *)
Theorem int_width_smallest (v : Z) :
  (-128 <= v <= 127 → int_width v = Int8)
  ∧ (¬ (-128 <= v <= 127) → -32768 <= v <= 32767 → int_width v = Int16)
  ∧ (¬ (-32768 <= v <= 32767) → int_width v = Int32)
  ∧ (-2147483648 <= v <= 2147483647 → fits (int_width v) v = true)
  ∧ (∀ w, fits w v = true → width_bits (int_width v) <= width_bits w)
  ∧ conv_int v = OInt (int_width v) v
  ∧ (∀ o sw code, lower_switch o sw = LoweredOk code →
       Forall (λ i, Forall well_encoded (args i)) code)
  ∧ int_width 50 = Int8 ∧ int_width 100 = Int8
  ∧ Forall (λ x, int_width x = Int16) [200; 300; 400; 500; 600; 700; 800; 900].
Proof.
  split; [|split; [|split]].
  - intros Hv. unfold int_width.
    destruct (Z.leb_spec (-128) v), (Z.leb_spec v 127); simpl; [done|lia..].
  - intros Hn Hv. unfold int_width.
    destruct (Z.leb_spec (-128) v), (Z.leb_spec v 127); simpl; try lia;
      destruct (Z.leb_spec (-32768) v), (Z.leb_spec v 32767); simpl;
      done || lia.
  - intros Hn. unfold int_width.
    destruct (Z.leb_spec (-128) v), (Z.leb_spec v 127); simpl; try lia;
      destruct (Z.leb_spec (-32768) v), (Z.leb_spec v 32767); simpl;
      done || lia.
  - split; [apply fits_int_width|].
    split; [apply int_width_minimal|].
    split; [reflexivity|].
    split.
    + intros o sw code [_ ->]%lower_switch_ok.
      apply emit_switch_well_encoded.
    + split; [reflexivity|]. split; [reflexivity|].
      repeat constructor.
Qed.

(** ** The fixture [test/codegen/switch_sa.sc]

    The CHECK lines of the three SWITCH blocks, as the model prints
    them. *)

Example switch_sa_block_1 :
  lowered_ir2 default_options switch_sa_1
  = Some ["SWITCH_START &8 4i8 1i8 @MAIN_5 50i8 @MAIN_4 100i8 @MAIN_1 200i16 @MAIN_2 300i16 @MAIN_3 -1i8 @MAIN_6 -1i8 @MAIN_6 -1i8 @MAIN_6"].
Proof. vm_compute. reflexivity. Qed.

Example switch_sa_block_2 :
  lowered_ir2 default_options switch_sa_2
  = Some ["SWITCH_START &8 3i8 0i8 @MAIN_10 50i8 @MAIN_9 100i8 @MAIN_7 200i16 @MAIN_8 -1i8 @MAIN_10 -1i8 @MAIN_10 -1i8 @MAIN_10 -1i8 @MAIN_10"].
Proof. vm_compute. reflexivity. Qed.

Example switch_sa_block_3 :
  lowered_ir2 default_options switch_sa_3
  = Some ["SWITCH_START &8 9i8 0i8 @MAIN_20 100i8 @MAIN_11 200i16 @MAIN_12 300i16 @MAIN_13 400i16 @MAIN_14 500i16 @MAIN_15 600i16 @MAIN_16 700i16 @MAIN_17";
          "SWITCH_CONTINUED 800i16 @MAIN_18 900i16 @MAIN_19 -1i8 @MAIN_20 -1i8 @MAIN_20 -1i8 @MAIN_20 -1i8 @MAIN_20 -1i8 @MAIN_20 -1i8 @MAIN_20 -1i8 @MAIN_20"].
Proof. vm_compute. reflexivity. Qed.

Example duplicate_case_rejected :
  lower_switch default_options
    (mkSwitchTable (GlobalVar 8) [(1, "A"); (2, "B"); (1, "C")] None "E")
  = LoweredError DuplicateCase.
Proof. reflexivity. Qed.

(** * Further properties of [program.hpp] *)

(** ** Options: the table of defined symbols *)

Lemma set_defines_same (o : Options) : set_defines (defines o) o = o.
Proof. by destruct o. Qed.

(** X1: [undefine] undoes a [define] that added the symbol: when [s] is
    not defined, [undefine(s)] after [define(s, v)] gives back the very
    same options. *)
Theorem undefine_define_fresh (o : Options) (s v : string) :
  is_defined s o = false → undefine s (define s v o) = o.
Proof.
  unfold is_defined, define, undefine. intros Hs.
  destruct (defines o !! s) eqn:E; [done|].
  rewrite defines_set_defines, lookup_insert_eq, set_defines_twice.
  rewrite delete_insert_id by done. apply set_defines_same.
Qed.

Lemma undefine_define_fresh_witness :
  is_defined "CLEO" default_options = false
  ∧ undefine "CLEO" (define "CLEO" "4" default_options) = default_options.
Proof.
  assert (H : is_defined "CLEO" default_options = false) by reflexivity.
  split; [exact H|].
  exact (undefine_define_fresh default_options "CLEO" "4" H).
Defined.

(** X2: the way to give a symbol a new value is to undefine it first:
    after [undefine(s)], [define(s, v)] stores [v], whatever [s] held
    before. *)
Theorem define_after_undefine (o : Options) (s v : string) :
  defines (define s v (undefine s o)) !! s = Some v
  ∧ is_defined s (define s v (undefine s o)) = true.
Proof.
  assert (H : defines (define s v (undefine s o)) !! s = Some v).
  { rewrite defines_define, defines_undefine. reflexivity. }
  split; [exact H|]. unfold is_defined. by rewrite H.
Qed.

(** X3: what [is_defined] answers after a [define] or an [undefine] of
    any symbol: [define(s')] adds [s'] and removes nothing,
    [undefine(s')] removes [s'] and nothing else. *)
Theorem is_defined_after (o : Options) (s s' v : string) :
  (is_defined s (define s' v o) = true ↔ s = s' ∨ is_defined s o = true)
  ∧ (is_defined s (undefine s' o) = true ↔ s ≠ s' ∧ is_defined s o = true).
Proof.
  split.
  - destruct (decide (s' = s)) as [->|Hne].
    + unfold is_defined at 1. rewrite defines_define. split; auto.
    + unfold is_defined. rewrite defines_define_ne by done.
      split; [auto|]. intros [->|H]; [done|exact H].
  - destruct (decide (s' = s)) as [->|Hne].
    + unfold is_defined at 1. rewrite defines_undefine.
      split; [done|]. by intros [? _].
    + unfold is_defined. rewrite defines_undefine_ne by done.
      split; [|by intros [_ ?]]. intros H. split; [congruence|exact H].
Qed.

(** X4: [define] and [undefine] touch the table of symbols only: every
    other option keeps its value, and so does every other symbol. *)
Theorem define_undefine_frame (o : Options) (s v : string) :
  set_defines (defines o) (define s v o) = o
  ∧ set_defines (defines o) (undefine s o) = o
  ∧ (∀ s', s' ≠ s →
       defines (define s v o) !! s' = defines o !! s'
       ∧ defines (undefine s o) !! s' = defines o !! s').
Proof.
  split; [|split].
  - unfold define. destruct (defines o !! s).
    + apply set_defines_same.
    + rewrite set_defines_twice. apply set_defines_same.
  - unfold undefine. destruct (defines o !! s).
    + rewrite set_defines_twice. apply set_defines_same.
    + apply set_defines_same.
  - intros s' Hne. split.
    + by apply defines_define_ne.
    + by apply defines_undefine_ne.
Qed.

(** X5: definitions of different symbols do not depend on their order. *)
Theorem define_commutes (o : Options) (s1 v1 s2 v2 : string) :
  s1 ≠ s2 →
  define s1 v1 (define s2 v2 o) = define s2 v2 (define s1 v1 o).
Proof.
  intros Hne. unfold define at 1 3.
  rewrite (defines_define_ne s1 s2) by done.
  rewrite (defines_define_ne s2 s1) by done.
  unfold define.
  destruct (defines o !! s1) eqn:E1, (defines o !! s2) eqn:E2;
    try reflexivity.
  rewrite !defines_set_defines, !set_defines_twice.
  f_equal. by apply insert_insert_ne.
Qed.

Lemma define_commutes_witness :
  "A" ≠ "B"
  ∧ define "A" "1" (define "B" "2" default_options)
    = define "B" "2" (define "A" "1" default_options).
Proof.
  assert (H : "A" ≠ "B") by discriminate.
  split; [exact H|].
  exact (define_commutes default_options "A" "1" "B" "2" H).
Defined.

(** X6: [undefine] of a symbol that is not defined changes nothing, so
    a second [undefine] of the same symbol has no effect. *)
Theorem undefine_absent (o : Options) (s : string) :
  (is_defined s o = false → undefine s o = o)
  ∧ undefine s (undefine s o) = undefine s o.
Proof.
  assert (H : ∀ o', is_defined s o' = false → undefine s o' = o').
  { intros o'. unfold is_defined, undefine.
    by destruct (defines o' !! s). }
  split; [apply H|]. apply H.
  unfold is_defined. by rewrite defines_undefine.
Qed.

(** ** format_error: edge cases and the overloads *)

(** X7: the text stream adds the source excerpt and nothing else: with a
    stream the text is the one produced without it, followed, when the
    line number is not zero, by the excerpt; with line number zero
    neither the column nor the excerpt is printed, whatever column and
    stream are passed. *)
Theorem format_error_excerpt_only (type : option string)
    (stream : TokenStream.TextStream) (filename : option string)
    (lineno colno : N) (msg : string) :
  format_error type (Some stream) filename lineno colno msg
  = format_error type None filename lineno colno msg
    +:+ (if (lineno =? 0)%N then ""
         else LF +:+ " " +:+ TokenStream.get_line stream lineno
              +:+ LF +:+ " " +:+ fmt_right "^" colno)
  ∧ format_error type (Some stream) filename 0 colno msg
    = format_error type None filename 0 0 msg.
Proof.
  split.
  - unfold format_error. destruct (lineno =? 0)%N; simpl negb; cbv iota.
    + set (m := _ +:+ msg). clearbody m.
      induction m as [|a m IH]; [reflexivity|].
      change (String a m = String a (m +:+ "")). by rewrite <- IH.
    + reflexivity.
  - reflexivity.
Qed.

(** X8: a known line with column zero: the location is [file:line:]
    without a column, yet the excerpt is printed, and its caret stands
    under the first column, as it does for column one. *)
Theorem format_error_column_zero (kind file msg : string)
    (stream : TokenStream.TextStream) (lineno : N) :
  lineno ≠ 0%N →
  format_error (Some kind) (Some stream) (Some file) lineno 0 msg
  = file +:+ ":" +:+ pretty lineno +:+ ": " +:+ kind +:+ ": " +:+ msg
    +:+ LF +:+ " " +:+ TokenStream.get_line stream lineno
    +:+ LF +:+ " ^".
Proof.
  intros Hl. unfold format_error.
  apply N.eqb_neq in Hl. rewrite Hl. simpl negb. cbv iota.
  simpl andb. cbv iota.
  change ("" +:+ file) with file.
  rewrite nonempty_app_cons.
  change (fmt_right "^" 0) with "^".
  rewrite !string_app_assoc. reflexivity.
Qed.

Lemma format_error_column_zero_witness :
  let stream :=
    TokenStream.mkTextStream "main.sc" (λ _, "WAIT 100") (λ _, (3%N, 0%N)) in
  3%N ≠ 0%N
  ∧ format_error (Some "error") (Some stream) (Some "main.sc") 3 0 "bad"
    = "main.sc:3: error: bad" +:+ LF +:+ " WAIT 100" +:+ LF +:+ " ^".
Proof.
  intros stream.
  assert (H3 : 3%N ≠ 0%N) by discriminate.
  split; [exact H3|].
  rewrite (format_error_column_zero "error" "main.sc" "bad" stream 3 H3).
  reflexivity.
Defined.

(** X9: a token of no extent ([begin == end]) is reported like the
    script as a whole: the stream's name, no line, no column and no
    excerpt, although the token has a stream. *)
Theorem format_error_empty_token (type : option string)
    (context : TokenStream.TokenInfo) (msg : string) :
  TokenStream.begin context = TokenStream.end_ context →
  format_error_at type context msg
  = format_error_at type
      (mkScript (TokenStream.stream_name (TokenStream.stream context))) msg.
Proof.
  intros He. unfold format_error_at, format_error_token, format_error_script.
  apply N.eqb_eq in He. by rewrite He.
Qed.

Lemma format_error_empty_token_witness :
  let stream :=
    TokenStream.mkTextStream "main.sc" (λ _, "WAIT 100") (λ _, (3%N, 6%N)) in
  let context := TokenStream.mkTokenInfo stream 7 7 in
  TokenStream.begin context = TokenStream.end_ context
  ∧ format_error_at (Some "error") context "bad" = "main.sc: error: bad".
Proof.
  intros stream context.
  assert (He : TokenStream.begin context = TokenStream.end_ context)
    by reflexivity.
  split; [exact He|].
  rewrite (format_error_empty_token (Some "error") context "bad" He).
  reflexivity.
Defined.

(** X10: a token with an extent is reported at the line and column its
    stream computes from the token's first offset, with the stream's
    name as file name and the stream's line as excerpt. *)
Theorem format_error_token_located (type : option string)
    (context : TokenStream.TokenInfo) (msg : string) (lineno colno : N) :
  TokenStream.begin context ≠ TokenStream.end_ context →
  TokenStream.linecol_from_offset (TokenStream.stream context)
    (TokenStream.begin context) = (lineno, colno) →
  (lineno < 2 ^ 32)%N → (colno < 2 ^ 32)%N →
  format_error_at type context msg
  = format_error type (Some (TokenStream.stream context))
      (Some (TokenStream.stream_name (TokenStream.stream context)))
      lineno colno msg.
Proof.
  intros Hne Hlc Hl Hc. unfold format_error_at, format_error_token.
  apply N.eqb_neq in Hne. rewrite Hne, Hlc.
  unfold wrap32. by rewrite !N.mod_small.
Qed.

Lemma format_error_token_located_witness :
  let stream :=
    TokenStream.mkTextStream "main.sc" (λ _, "WAIT 100") (λ _, (3%N, 6%N)) in
  let context := TokenStream.mkTokenInfo stream 7 11 in
  TokenStream.begin context ≠ TokenStream.end_ context
  ∧ format_error_at (Some "error") context "bad"
    = "main.sc:3:6: error: bad" +:+ LF +:+ " WAIT 100"
      +:+ LF +:+ "      ^".
Proof.
  intros stream context.
  assert (Hne : TokenStream.begin context ≠ TokenStream.end_ context)
    by discriminate.
  split; [exact Hne|].
  rewrite (format_error_token_located (Some "error") context "bad" 3 6
             Hne eq_refl eq_refl eq_refl).
  vm_compute. reflexivity.
Defined.

(** X11: when the syntax tree node that stands for the context has lost
    its token stream, the text is a fixed internal error: the kind and
    the message of the diagnostic are not printed. *)
Theorem format_error_tree_expired (type : option string)
    (context : SyntaxTree) (msg : string) :
  has_text context = true ∨ List.find has_text (children context) = None →
  token_stream context = None →
  format_error_at type context msg
  = "gta3sc: internal_error: context->token_stream() == nullptr during format_error".
Proof.
  intros Hsel Hts. unfold format_error_at at 1, format_error_tree.
  assert (Hctx : (if negb (has_text context)
                  then match List.find has_text (children context) with
                       | Some child => child
                       | None => context
                       end
                  else context) = context).
  { destruct Hsel as [-> | ->]; [reflexivity|].
    by destruct (negb (has_text context)). }
  rewrite Hctx, Hts. reflexivity.
Qed.

Lemma format_error_tree_expired_witness :
  let context :=
    SyntaxTreeNode true None (TokenStream.mkTokenData 0 4) [] in
  (has_text context = true ∨ List.find has_text (children context) = None)
  ∧ token_stream context = None
  ∧ format_error_at (Some "error") context "bad"
    = "gta3sc: internal_error: context->token_stream() == nullptr during format_error".
Proof.
  intros context.
  assert (Hsel : has_text context = true
                 ∨ List.find has_text (children context) = None)
    by (left; reflexivity).
  split; [exact Hsel|]. split; [reflexivity|].
  exact (format_error_tree_expired (Some "error") context "bad" Hsel eq_refl).
Defined.

(** X12: a node without text is reported at its first child that has
    text: the diagnostic reads as if it had been raised on that child. *)
Theorem format_error_tree_delegates (type : option string)
    (context child : SyntaxTree) (msg : string) :
  has_text context = false →
  List.find has_text (children context) = Some child →
  format_error_at type context msg = format_error_at type child msg.
Proof.
  intros Hnt Hfind.
  destruct (find_some _ _ Hfind) as [_ Hchild].
  unfold format_error_at, format_error_tree.
  by rewrite Hnt, Hfind, Hchild.
Qed.

Lemma format_error_tree_delegates_witness :
  let stream :=
    TokenStream.mkTextStream "main.sc" (λ _, "WAIT 100") (λ _, (3%N, 6%N)) in
  let ts := Some (TokenStream.mkTokenStream stream) in
  let child := SyntaxTreeNode true ts (TokenStream.mkTokenData 7 11) [] in
  let context :=
    SyntaxTreeNode false ts (TokenStream.mkTokenData 0 0)
      [SyntaxTreeNode false ts (TokenStream.mkTokenData 1 2) []; child] in
  has_text context = false
  ∧ List.find has_text (children context) = Some child
  ∧ format_error_at (Some "error") context "bad"
    = format_error_at (Some "error") child "bad".
Proof.
  intros stream ts child context.
  split; [reflexivity|]. split; [reflexivity|].
  exact (format_error_tree_delegates (Some "error") context child "bad"
           eq_refl eq_refl).
Defined.

(** ** ProgramContext: commands, counters and output *)

Lemma wrap32_lt (n : N) : (wrap32 n < 2 ^ 32)%N.
Proof. unfold wrap32. by apply N.mod_lt. Qed.

Lemma wrap32_small (n : N) : (n < 2 ^ 32)%N → wrap32 n = n.
Proof. unfold wrap32. apply N.mod_small. Qed.

Lemma wrap32_add_l (a b : N) : wrap32 (wrap32 a + b) = wrap32 (a + b).
Proof. unfold wrap32. by rewrite N.Div0.add_mod_idemp_l. Qed.

Lemma wrap32_add_r (a b : N) : wrap32 (a + wrap32 b) = wrap32 (a + b).
Proof. unfold wrap32. by rewrite N.Div0.add_mod_idemp_r. Qed.

Section Commands.
Context {Context : Type} `{ErrorContext Context}.

(** X13: [supported_or_fatal] returns only a command that is known and
    supported, and then it returns that very command and leaves the
    counters and the output as they were. *)
Theorem supported_or_fatal_returns (context : Context)
    (opt : option Command) (name : string) (pc pc' : ProgramContext)
    (c : Command) :
  supported_or_fatal context opt name pc = (Returned c, pc')
  ↔ opt = Some c ∧ supported c = true ∧ pc' = pc.
Proof.
  unfold supported_or_fatal. split.
  - destruct opt as [c0|]; [destruct (supported c0) eqn:Hs|]; simpl;
      intros Hr; try by inversion Hr.
    inversion Hr; subst. done.
  - intros (-> & Hs & ->). by rewrite Hs.
Qed.

(** X14: a command that is missing from the database and a command
    that is known but not supported get the same diagnostic: same halt,
    same counter, same text. *)
Theorem supported_or_fatal_missing (context : Context) (c : Command)
    (name : string) (pc : ProgramContext) :
  supported c = false →
  supported_or_fatal context None name pc
  = supported_or_fatal context (Some c) name pc
  ∧ (supported_or_fatal context None name pc).1 = Halted
  ∧ fatal_count (supported_or_fatal context None name pc).2
    = wrap32 (fatal_count pc + 1).
Proof.
  intros Hs. unfold supported_or_fatal. rewrite Hs. by repeat split.
Qed.

(** X15: [supported_or_fatal] for alternators returns only an
    alternator that was found, unchanged and without any effect; a
    missing alternator halts the job with one more fatal error. *)
Theorem supported_or_fatal_alternator_returns (context : Context)
    (opt : option Alternator) (name : string) (pc pc' : ProgramContext)
    (a : Alternator) :
  (supported_or_fatal_alternator context opt name pc = (Returned a, pc')
   ↔ opt = Some a ∧ pc' = pc)
  ∧ ((supported_or_fatal_alternator context opt name pc).1 = Halted
     ↔ opt = None)
  ∧ (opt = None →
     fatal_count (supported_or_fatal_alternator context opt name pc).2
     = wrap32 (fatal_count pc + 1)).
Proof.
  unfold supported_or_fatal_alternator. split; [|split].
  - split.
    + destruct opt as [a0|]; simpl; intros Hr; inversion Hr; by subst.
    + by intros (-> & ->).
  - by destruct opt.
  - by intros ->.
Qed.

End Commands.

Lemma supported_or_fatal_missing_witness :
  supported (mkCommand "SWITCH_START" 2161 false) = false
  ∧ supported_or_fatal nocontext None "SWITCH_START"
      (new_context default_options)
    = supported_or_fatal nocontext
        (Some (mkCommand "SWITCH_START" 2161 false)) "SWITCH_START"
        (new_context default_options).
Proof.
  split; [reflexivity|].
  destruct (supported_or_fatal_missing nocontext
              (mkCommand "SWITCH_START" 2161 false) "SWITCH_START"
              (new_context default_options) eq_refl) as (Heq & _).
  exact Heq.
Defined.

Section Runs.
Context {Context : Type} `{ErrorContext Context}.

Lemma report_run (d : Diagnostic) (context : Context) (msg : string)
    (pc : ProgramContext) :
  report d context msg pc
  = (if is_fatal d then Halted else Returned tt,
     mkProgramContext (opt pc)
       (if is_error d then wrap32 (error_count pc + 1) else error_count pc)
       (if is_fatal d then wrap32 (fatal_count pc + 1) else fatal_count pc)
       (match d with
        | DWarning => wrap32 (warn_count pc + 1)
        | _ => warn_count pc
        end)
       (stderr pc ++ [format_error_at (Some (kind_name d)) context msg +:+ LF])).
Proof. by destruct d. Qed.

Lemma run_reports_nil (pc : ProgramContext) :
  run_reports (Context := Context) [] pc = (Returned tt, pc).
Proof. reflexivity. Qed.

Lemma run_reports_cons (r : Diagnostic * Context * string)
    (rs : list (Diagnostic * Context * string)) (pc : ProgramContext) :
  run_reports (r :: rs) pc
  = if is_fatal r.1.1 then report r.1.1 r.1.2 r.2 pc
    else run_reports rs (report r.1.1 r.1.2 r.2 pc).2.
Proof.
  destruct r as [[d c] m]. unfold run_reports. simpl.
  unfold mbind, Job_bind. rewrite report_run. by destruct d.
Qed.

Lemma report_in_range (d : Diagnostic) (context : Context) (msg : string)
    (pc : ProgramContext) :
  counters_in_range pc → counters_in_range (report d context msg pc).2.
Proof.
  intros (He & Hf & Hw). rewrite report_run.
  unfold counters_in_range. simpl.
  destruct d; simpl; auto using wrap32_lt.
Qed.



(** X18: a run of diagnostics halts the job exactly when one of them is
    a fatal error, and it then counts exactly one fatal error: the
    fatal counter goes up by one when the run halts and stays as it was
    when it does not. *)
Theorem run_reports_halts (rs : list (Diagnostic * Context * string))
    (pc : ProgramContext) :
  ((run_reports rs pc).1 = Halted ↔ DFatalError ∈ kinds rs)
  ∧ ((run_reports rs pc).1 = Returned tt ↔ DFatalError ∉ kinds rs)
  ∧ fatal_count (run_reports rs pc).2
    = (if existsb is_fatal (kinds rs)
       then wrap32 (fatal_count pc + 1) else fatal_count pc).
Proof.
  revert pc. induction rs as [|r rs IH]; intros pc.
  - rewrite run_reports_nil. simpl. split; [|split; [|done]].
    + split; [done|]. by intros ?%elem_of_nil.
    + split; [|done]. intros _ ?%elem_of_nil. done.
  - rewrite run_reports_cons. unfold kinds. rewrite fmap_cons. fold (kinds rs).
    simpl existsb. destruct r as [[d c] m]. simpl fst. simpl snd.
    destruct (is_fatal d) eqn:Hf.
    + destruct d; try done. rewrite report_run. simpl.
      split; [|split; [|done]].
      * split; [intros _; apply elem_of_cons; by left|done].
      * split; [done|]. intros Hn. exfalso. apply Hn, elem_of_cons. by left.
    + destruct (IH (report d c m pc).2) as (IH1 & IH2 & IH3).
      assert (Hd : d ≠ DFatalError) by (by destruct d).
      split; [|split].
      * rewrite IH1, elem_of_cons. split; [by right|].
        intros [Heq|Hin]; [by symmetry in Heq|exact Hin].
      * rewrite IH2, elem_of_cons. split.
        -- intros Hn [Heq|Hin]; [by symmetry in Heq|by apply Hn].
        -- intros Hn Hin. apply Hn. by right.
      * rewrite IH3. rewrite report_run, Hf. reflexivity.
Qed.

(** X19: what a run of diagnostics adds to the error and warning
    counters: the number of errors, and of warnings, among the
    diagnostics up to its first fatal error, modulo [2^32]. *)
Theorem run_reports_counts (rs : list (Diagnostic * Context * string))
    (pc : ProgramContext) :
  counters_in_range pc →
  error_count (run_reports rs pc).2
  = wrap32 (error_count pc
            + N.of_nat (length (List.filter is_error (kinds (effective rs)))))
  ∧ warn_count (run_reports rs pc).2
    = wrap32 (warn_count pc
              + N.of_nat (length (List.filter is_warning
                                    (kinds (effective rs))))).
Proof.
  revert pc. induction rs as [|r rs IH]; intros pc Hpc.
  - destruct Hpc as (He & _ & Hw). rewrite run_reports_nil. simpl.
    by rewrite !N.add_0_r, !wrap32_small.
  - rewrite run_reports_cons. simpl effective.
    destruct r as [[d c] m]. simpl fst. simpl snd.
    destruct (is_fatal d) eqn:Hf.
    + destruct d; try done. destruct Hpc as (He & _ & Hw).
      rewrite report_run. simpl.
      by rewrite !N.add_0_r, !wrap32_small.
    + destruct (IH _ (report_in_range d c m pc Hpc)) as [IHe IHw].
      rewrite IHe, IHw, report_run. unfold kinds. rewrite fmap_cons.
      fold (kinds (effective rs)).
      destruct d; try done;
        cbn [fst snd error_count warn_count is_fatal is_error is_warning
             List.filter length];
        split; rewrite ?wrap32_add_l, ?Nat2N.inj_succ; try reflexivity;
        f_equal; lia.
Qed.

(** X20: [register_errors] adds up: registering [n] and then [m] errors
    is registering [n + m] (taken as a [uint32_t]) at once, and
    registering none changes nothing. *)
Theorem register_errors_adds (n m : N) (pc : ProgramContext) :
  counters_in_range pc →
  register_errors m (register_errors n pc).2
  = register_errors (wrap32 (n + m)) pc
  ∧ register_errors 0 pc = (Returned tt, pc).
Proof.
  intros (He & _ & _). unfold register_errors. simpl. split.
  - do 2 f_equal.
    rewrite wrap32_add_l, wrap32_add_r. f_equal. lia.
  - rewrite N.add_0_r, wrap32_small by done. by destruct pc.
Qed.

(** X21: the counters wrap: after an [error], [has_error] is false
    exactly when the error counter stood at [2^32 - 1] and no fatal
    error had been counted; in every other state it is true. *)
Theorem error_counter_wraps (context : Context) (msg : string)
    (pc : ProgramContext) :
  counters_in_range pc →
  (has_error (error context msg pc).2 = false
   ↔ error_count pc = (2 ^ 32 - 1)%N ∧ fatal_count pc = 0%N).
Proof.
  intros (He & _ & _). unfold has_error. simpl.
  rewrite orb_false_iff, !N.ltb_ge. unfold wrap32.
  destruct (decide (error_count pc = 2 ^ 32 - 1)%N) as [Hmax|Hnmax].
  - rewrite Hmax. change ((2 ^ 32 - 1 + 1) mod 2 ^ 32)%N with 0%N. lia.
  - rewrite N.mod_small by lia. lia.
Qed.

End Runs.


Lemma run_reports_counts_witness :
  counters_in_range (new_context default_options)
  ∧ error_count
      (run_reports
         [(DError, nocontext, "a"); (DWarning, nocontext, "b");
          (DError, nocontext, "c"); (DFatalError, nocontext, "d");
          (DError, nocontext, "e")]
         (new_context default_options)).2
    = 2%N.
Proof.
  assert (H0 : counters_in_range (new_context default_options))
    by (unfold counters_in_range; simpl; lia).
  split; [exact H0|].
  destruct (run_reports_counts
              [(DError, nocontext, "a"); (DWarning, nocontext, "b");
               (DError, nocontext, "c"); (DFatalError, nocontext, "d");
               (DError, nocontext, "e")]
              (new_context default_options) H0) as [He _].
  rewrite He. reflexivity.
Defined.

Lemma register_errors_adds_witness :
  counters_in_range (new_context default_options)
  ∧ register_errors 5 (register_errors 4294967295 (new_context default_options)).2
    = register_errors 4 (new_context default_options).
Proof.
  assert (H0 : counters_in_range (new_context default_options))
    by (unfold counters_in_range; simpl; lia).
  split; [exact H0|].
  destruct (register_errors_adds 4294967295 5 (new_context default_options) H0)
    as [Hadd _].
  rewrite Hadd. reflexivity.
Defined.

Lemma error_counter_wraps_witness :
  let pc := mkProgramContext default_options 4294967295 0 0 [] in
  counters_in_range pc
  ∧ has_error (error nocontext "one too many" pc).2 = false.
Proof.
  intros pc.
  assert (H0 : counters_in_range pc)
    by (unfold counters_in_range; simpl; lia).
  split; [exact H0|].
  apply (error_counter_wraps nocontext "one too many" pc H0).
  split; reflexivity.
Defined.
